(** * Hashtag formatter of [post_generator.py]

    A shallow embedding of [parse_hashtags] and [add_hashtags] and the
    properties of the hashtag-formatting specification.

    Python values are modelled as follows.
    - A [str] is the list of its Unicode code points, so [len] is [length]
      (Cyrillic text counts one per letter, as in Python).
    - A [set] of strings is a [gset str]; [set.pop()] removes an element the
      caller does not choose, which is a parameter of the model ([SetPop]).
    - Arguments that Python accepts at run time with any type are [pyval]s,
      and a call returns a [result]: a value or the exception raised.
    - The elements of a [set] argument are strings and [lim] is an [int], as
      the annotations of [add_hashtags] say. *)

From Stdlib Require Import ZArith NArith Ascii String.
From stdpp Require Import base option list gmap fin_sets.

Local Open Scope Z_scope.

(** ** Python strings *)

Module PyStr.

Abbreviation char := N.
Abbreviation str := (list N).

(** An ASCII literal as a Python string. *)
Fixpoint py (s : String.string) : str :=
  match s with
  | EmptyString => []
  | String c s' => N_of_ascii c :: py s'
  end.

Definition chr_space : char := 32%N.
Definition chr_hash : char := 35%N.
Definition chr_comma : char := 44%N.

(** [len(s)], a Python [int]. *)
Definition len (s : str) : Z := Z.of_nat (length s).

(** [str.isspace] on one character: the code points CPython treats as
    whitespace in [split()] and [strip()]. *)
Definition isspace (c : char) : bool :=
  ((9 <=? c) && (c <=? 13) || (28 <=? c) && (c <=? 32)
   || (c =? 133) || (c =? 160) || (c =? 5760)
   || (8192 <=? c) && (c <=? 8202)
   || (c =? 8232) || (c =? 8233) || (c =? 8239) || (c =? 8287)
   || (c =? 12288))%N.

(** [s.split(sep)] for a one-character separator: the pieces between the
    separators, empty pieces kept; the empty string gives one empty piece. *)
Fixpoint split_sep (sep : char) (s : str) : list str :=
  match s with
  | [] => [[]]
  | c :: s' =>
      if (c =? sep)%N then [] :: split_sep sep s'
      else match split_sep sep s' with
           | p :: ps => (c :: p) :: ps
           | [] => [[c]]
           end
  end.

(** [s.replace(old, new)] for a one-character [old]. *)
Definition replace (old : char) (new : str) (s : str) : str :=
  flat_map (fun c => if (c =? old)%N then new else [c]) s.

(** [s.split()]: the maximal runs of non-whitespace characters. [tok] is
    the run being read, last character first. *)
Fixpoint split_go (tok : str) (s : str) : list str :=
  match s with
  | [] => match tok with [] => [] | _ => [rev tok] end
  | c :: s' =>
      if isspace c
      then match tok with
           | [] => split_go [] s'
           | _ => rev tok :: split_go [] s'
           end
      else split_go (c :: tok) s'
  end.

Definition split (s : str) : list str := split_go [] s.

(** [s.lstrip()], [s.rstrip()], [s.strip()]. *)
Fixpoint lstrip (s : str) : str :=
  match s with
  | [] => []
  | c :: s' => if isspace c then lstrip s' else s
  end.

Definition rstrip (s : str) : str := rev (lstrip (rev s)).

Definition strip (s : str) : str := rstrip (lstrip s).

(** [s.startswith(prefix)]. *)
Fixpoint startswith (s prefix : str) {struct prefix} : bool :=
  match prefix, s with
  | [], _ => true
  | _ :: _, [] => false
  | p :: prefix', c :: s' => (c =? p)%N && startswith s' prefix'
  end.

(** [s.removeprefix(prefix)]. *)
Definition removeprefix (s prefix : str) : str :=
  if startswith s prefix then drop (length prefix) s else s.

End PyStr.

Import PyStr.

(** ** Python values, exceptions and results *)

Inductive pyval : Type :=
  | VNone
  | VInt (z : Z)
  | VStr (s : str)
  | VList (l : list str)
  | VSet (s : gset str).

Inductive exn : Type := TypeError | ValueError.

Inductive result (A : Type) : Type :=
  | Ok (a : A)
  | Raise (e : exn).
Arguments Ok {A} a.
Arguments Raise {A} e.

(** [isinstance(v, str)] and [isinstance(v, set)]. *)
Definition is_str (v : pyval) : bool :=
  match v with VStr _ => true | _ => false end.
Definition is_set (v : pyval) : bool :=
  match v with VSet _ => true | _ => false end.

(** [v == lit] for a string literal [lit]. *)
Definition eq_lit (v : pyval) (lit : str) : bool :=
  match v with
  | VStr s => bool_decide (s = lit)
  | _ => false
  end.

(** ** [parse_hashtags] *)

Definition parse_hashtags (string format : pyval) : result (gset str) :=
  match string with
  | VStr s =>
      match s with
      | [] => Ok ∅
      | _ =>
          if eq_lit format (py "comma") then
            Ok (list_to_set
                  (map (fun v => py "#" ++ replace chr_space [] v)
                       (split_sep chr_comma s)))
          else if eq_lit format (py "space") then
            Ok (list_to_set
                  (map (fun v => py "#" ++ removeprefix (strip v) (py "#"))
                       (split s)))
          else if eq_lit format (py "hash") then
            Ok (list_to_set
                  (map strip
                       (List.filter (fun v => startswith v (py "#"))
                                    (split s))))
          else Raise ValueError
      end
  | _ => Raise TypeError
  end.

(** ** [add_hashtags] *)

(** [set.pop()] removes and returns an element of its choice. A [SetPop]
    fixes that choice for every non-empty set; within one call each set the
    loop pops from is smaller than the one before, so every sequence of pops
    Python can make is the sequence of some [SetPop]. *)
Class SetPop : Type := {
  pop_elem : gset str -> str;
  pop_elem_in : forall s : gset str, s ≠ ∅ -> pop_elem s ∈ s
}.

(** The choice that pops the first of [elements]. *)
Definition first_elem (s : gset str) : str := default [] (head (elements s)).

(** The state when the [while] loop is left. [lr_appended], [lr_rejected]
    and [lr_iters] are ghost: the tags appended, in order, the popped tag
    that failed the test (if the loop left by [break]), and the number of
    times the loop body ran. *)
Record loop_result : Type := {
  lr_text : str;
  lr_hashtags : gset str;
  lr_appended : list str;
  lr_rejected : option str;
  lr_iters : nat
}.

Section AddHashtags.
Context `{SetPop}.

(** The [while hashtags:] loop; [None] when [fuel] bodies were run and the
    loop has not been left. [hashtags.pop()] is reached on a non-empty set
    only, where it cannot raise [KeyError]. *)
Fixpoint while_hashtags (fuel : nat) (text : str) (hashtags : gset str)
         (lim : Z) : option loop_result :=
  if decide (hashtags = ∅) then
    Some {| lr_text := text; lr_hashtags := hashtags;
            lr_appended := []; lr_rejected := None; lr_iters := 0 |}
  else
    match fuel with
    | O => None
    | S fuel' =>
        let ht := pop_elem hashtags in
        let hashtags := hashtags ∖ {[ht]} in
        if len text + len ht + 1 <? lim then
          match while_hashtags fuel' (text ++ py " " ++ ht) hashtags lim with
          | Some r =>
              Some {| lr_text := lr_text r; lr_hashtags := lr_hashtags r;
                      lr_appended := ht :: lr_appended r;
                      lr_rejected := lr_rejected r;
                      lr_iters := S (lr_iters r) |}
          | None => None
          end
        else
          Some {| lr_text := text; lr_hashtags := hashtags;
                  lr_appended := []; lr_rejected := Some ht;
                  lr_iters := 1 |}
    end.

(** The value returned (or the exception raised) and the [hashtags]
    argument as the call leaves it. The loop gets fuel for one body per
    element of the set; [add_hashtags_terminates] shows that it never needs
    more. *)
Definition add_hashtags (text hashtags : pyval) (lim : Z)
  : option (result str * pyval) :=
  match text with
  | VStr t =>
      match hashtags with
      | VSet hs =>
          match while_hashtags (size hs) t hs lim with
          | Some r => Some (Ok (lr_text r), VSet (lr_hashtags r))
          | None => None
          end
      | _ => Some (Raise TypeError, hashtags)
      end
  | _ => Some (Raise TypeError, hashtags)
  end.

End AddHashtags.

(** ** The specification's wording of the [comma] convention *)

(** "Remove all internal whitespace". *)
Definition remove_whitespace (s : str) : str :=
  List.filter (fun c => negb (isspace c)) s.

(** "Split on [,], remove all internal whitespace of each piece, prefix [#]". *)
Definition extract_comma_spec (s : str) : gset str :=
  list_to_set
    (map (fun p => py "#" ++ remove_whitespace p) (split_sep chr_comma s)).

(** What the code removes: the U+0020 characters only. *)
Definition remove_spaces (s : str) : str :=
  List.filter (fun c => negb (c =? chr_space)%N) s.

(** A string starts with exactly one [#]. *)
Definition one_leading_hash (x : str) : bool :=
  startswith x (py "#") && negb (startswith x (py "##")).

(** [sep.join(pieces)]. *)
Fixpoint join (sep : char) (pieces : list str) : str :=
  match pieces with
  | [] => []
  | [p] => p
  | p :: ps => p ++ sep :: join sep ps
  end.

(** The text appended by the loop: one space and the tag, per tag. *)
Definition blocks (tags : list str) : str :=
  flat_map (fun ht => py " " ++ ht) tags.

(** The tags the loop popped, in order. *)
Definition popped (r : loop_result) : list str :=
  lr_appended r ++ option_list (lr_rejected r).

(** The room the tags of a set take when all are appended: one space and
    the tag, per tag. *)
Definition blocks_length (l : list str) : Z :=
  foldr (fun ht acc => len ht + 1 + acc) 0 l.

Definition tags_length (hs : gset str) : Z := blocks_length (elements hs).

(** A tag without whitespace that starts with [#]. *)
Definition hashtag_like (x : str) : Prop :=
  startswith x (py "#") = true /\ Forall (fun c => isspace c = false) x.

(** ** [main] *)

(** [POST_LEN_LIMIT]. *)
Definition POST_LEN_LIMIT : Z := 200.

Definition chr_newline : char := 10%N.

(** What a run of [main] comes to: [return 1] after a failure it caught, or
    the row it gives to [writer.writerow]; after that [main] returns [None],
    also when the file could not be written. *)
Inductive main_outcome : Type :=
  | Return1
  | WriteRow (theme style post : str).

Section Main.
Context `{SetPop}.

(** The text-generation pipeline is code of other modules ([GenAI_1_17],
    [GenAI_2_21]); a run is given what its calls came to. [init_ok] says
    that [text_pipeline_init] returned; [story_out] and [htags_out] are the
    strings the two calls of [generate_text] returned, [None] for a call
    that raised. [themes] and [style] are the command-line arguments, which
    [main] asserts to be strings. The [assert] statements are executed (the
    interpreter runs without [-O]). *)
Definition main (init_ok : bool) (themes style : str)
           (story_out htags_out : option str) : option main_outcome :=
  if negb init_ok then Some Return1
  else
    let base_ht :=
      match parse_hashtags (VStr themes) (VStr (py "comma")) with
      | Ok tags => tags
      | Raise _ => ∅
      end in
    match story_out with
    | None => Some Return1
    | Some story =>
        if negb (len story <? 200) then Some Return1
        else
          match htags_out with
          | None => Some Return1
          | Some htags =>
              match parse_hashtags (VStr htags) (VStr (py "hash")) with
              | Raise _ => Some Return1
              | Ok generated =>
                  let htags_set := base_ht ∪ generated in
                  let story := replace chr_newline (py " ") story in
                  match add_hashtags (VStr story) (VSet htags_set)
                                     POST_LEN_LIMIT with
                  | None => None
                  | Some (Raise _, _) => Some Return1
                  | Some (Ok story, _) => Some (WriteRow themes style story)
                  end
              end
          end
    end.

End Main.

(** ** The run of the loop, told from outside *)

(** Each tag of [l], tried in order on the text as the tags before it left
    it, passes the test [len(text) + len(ht) + 1 < lim]. *)
Fixpoint all_fit (t : str) (lim : Z) (l : list str) : Prop :=
  match l with
  | [] => True
  | ht :: l' => len t + len ht + 1 < lim /\ all_fit (t ++ py " " ++ ht) lim l'
  end.

Section PopSequence.
Context `{SetPop}.

(** [l] is what the first [length l] calls of [hashtags.pop()] return, in
    order, on a set that holds [hs] before the first of them. *)
Fixpoint pop_sequence (hs : gset str) (l : list str) : Prop :=
  match l with
  | [] => True
  | x :: l' => hs <> ∅ /\ x = pop_elem hs /\ pop_sequence (hs ∖ {[ x ]}) l'
  end.

End PopSequence.

(** * Properties *)

(** ** A [SetPop] exists *)

Lemma first_elem_in (s : gset str) : s ≠ ∅ -> first_elem s ∈ s.
Proof.
  intros Hs. unfold first_elem.
  destruct (elements s) as [|x l] eqn:E.
  - apply elements_empty_inv in E. apply leibniz_equiv in E. contradiction.
  - cbn. apply elem_of_elements. rewrite E. left.
Qed.

#[global] Instance first_pop : SetPop :=
  {| pop_elem := first_elem; pop_elem_in := first_elem_in |}.

(** ** String operations *)

Section StringFacts.

Lemma split_sep_nonempty sep s : split_sep sep s <> [].
Proof.
  destruct s as [|c s]; cbn; [discriminate|].
  destruct (c =? sep)%N; [discriminate|].
  destruct (split_sep sep s); discriminate.
Qed.

(** Joining the pieces with the separator gives the string back. *)
Lemma join_split_sep sep s : join sep (split_sep sep s) = s.
Proof.
  induction s as [|c s IH]; [reflexivity|].
  cbn [split_sep]. destruct (N.eqb_spec c sep) as [->|Hne].
  - pose proof (split_sep_nonempty sep s) as Hn.
    destruct (split_sep sep s) as [|p ps]; [contradiction|].
    cbn [join app] in *. now rewrite IH.
  - pose proof (split_sep_nonempty sep s) as Hn.
    destruct (split_sep sep s) as [|p ps]; [contradiction|].
    destruct ps as [|q ps]; cbn [join app] in *; now rewrite <- IH.
Qed.

(** No piece holds the separator. *)
Lemma split_sep_no_sep sep s :
  Forall (fun p => sep ∉ p) (split_sep sep s).
Proof.
  induction s as [|c s IH]; cbn [split_sep].
  - repeat constructor. apply not_elem_of_nil.
  - destruct (N.eqb_spec c sep) as [->|Hne].
    + constructor; [apply not_elem_of_nil | exact IH].
    + destruct (split_sep sep s) as [|p ps].
      * repeat constructor. intros Hin. apply list_elem_of_singleton in Hin.
        congruence.
      * inversion IH as [|? ? Hp Hps]; subst. constructor; [|exact Hps].
        intros Hin. apply elem_of_cons in Hin as [->|Hin]; [congruence|].
        contradiction.
Qed.

Lemma replace_space_remove_spaces s :
  replace chr_space [] s = remove_spaces s.
Proof.
  unfold replace, remove_spaces.
  induction s as [|c s IH]; [reflexivity|].
  cbn [flat_map List.filter]. rewrite IH.
  destruct (c =? chr_space)%N; reflexivity.
Qed.

(** Tokens of [split()] are non-empty and hold no whitespace. *)
Lemma split_go_tokens s : forall tok t,
  Forall (fun c => isspace c = false) tok ->
  t ∈ split_go tok s ->
  t <> [] /\ Forall (fun c => isspace c = false) t.
Proof.
  assert (Hrev : forall c tok,
             Forall (fun c => isspace c = false) (c :: tok) ->
             rev (c :: tok) <> [] /\
             Forall (fun c => isspace c = false) (rev (c :: tok))).
  { intros c tok Hf. split.
    - intros Hr. apply (f_equal (@length N)) in Hr.
      rewrite length_rev in Hr. discriminate.
    - now apply List.Forall_rev. }
  induction s as [|c s IH]; intros tok t Htok Hin; cbn [split_go] in Hin.
  - destruct tok as [|c0 tok]; [now apply elem_of_nil in Hin|].
    apply list_elem_of_singleton in Hin as ->. now apply Hrev.
  - destruct (isspace c) eqn:Ec.
    + destruct tok as [|c0 tok]; [now apply (IH [])|].
      apply elem_of_cons in Hin as [->|Hin]; [now apply Hrev|].
      now apply (IH []).
    + apply (IH (c :: tok)); [|exact Hin]. now constructor.
Qed.

Lemma split_tokens s t :
  t ∈ split s -> t <> [] /\ Forall (fun c => isspace c = false) t.
Proof. apply split_go_tokens. constructor. Qed.

Lemma lstrip_nospace t :
  Forall (fun c => isspace c = false) t -> lstrip t = t.
Proof.
  destruct 1 as [|c t Hc _]; [reflexivity|]. cbn. now rewrite Hc.
Qed.

(** [strip()] leaves a string without whitespace as it is. *)
Lemma strip_nospace t :
  Forall (fun c => isspace c = false) t -> strip t = t.
Proof.
  intros Ht. unfold strip, rstrip. rewrite (lstrip_nospace t Ht).
  rewrite lstrip_nospace by now apply List.Forall_rev.
  apply rev_involutive.
Qed.

Lemma strip_token s t : t ∈ split s -> strip t = t.
Proof. intros Hin. apply strip_nospace. now apply (split_tokens s). Qed.

End StringFacts.

(** ** [parse_hashtags] *)

Lemma Ok_inj {A : Type} (a b : A) : Ok a = Ok b -> a = b.
Proof. intros Heq. now inversion Heq. Qed.

Section ParseHashtags.

Lemma eq_lit_false (format : pyval) (lit : str) :
  format <> VStr lit -> eq_lit format lit = false.
Proof.
  destruct format as [| |s| |]; try reflexivity.
  intros Hne. cbn. apply bool_decide_eq_false_2. congruence.
Qed.

(** The three branches on a non-empty string. *)
Lemma parse_hashtags_comma_eq (s : str) :
  s <> [] ->
  parse_hashtags (VStr s) (VStr (py "comma")) =
  Ok (list_to_set (map (fun v => py "#" ++ replace chr_space [] v)
                       (split_sep chr_comma s))).
Proof. destruct s; [contradiction | reflexivity]. Qed.

Lemma parse_hashtags_space_eq (s : str) :
  parse_hashtags (VStr s) (VStr (py "space")) =
  Ok (list_to_set (map (fun v => py "#" ++ removeprefix (strip v) (py "#"))
                       (split s))).
Proof. destruct s; reflexivity. Qed.

Lemma parse_hashtags_hash_eq (s : str) :
  parse_hashtags (VStr s) (VStr (py "hash")) =
  Ok (list_to_set (map strip (List.filter (fun v => startswith v (py "#"))
                                          (split s)))).
Proof. destruct s; reflexivity. Qed.

(** The tag made from a token in [space] mode: a token that starts with
    [#] is kept as it is, any other gets one [#] in front. *)
Lemma space_tag_of_token (v : str) :
  py "#" ++ removeprefix v (py "#") =
  (if startswith v (py "#") then v else py "#" ++ v).
Proof.
  change (py "#") with [35%N].
  unfold removeprefix. destruct v as [|c v]; [reflexivity|].
  cbn. destruct (N.eqb_spec c 35) as [->|Hne]; reflexivity.
Qed.

Lemma space_tag_one_leading_hash (v : str) :
  one_leading_hash (py "#" ++ removeprefix v (py "#")) =
  negb (startswith v (py "##")).
Proof.
  rewrite space_tag_of_token. unfold one_leading_hash.
  change (py "#") with [35%N]. change (py "##") with [35%N; 35%N].
  destruct v as [|c v]; [reflexivity|].
  cbn. destruct (N.eqb_spec c 35) as [->|Hne]; cbn.
  - destruct v as [|d v]; [reflexivity|]. cbn.
    now rewrite !andb_true_r.
  - apply N.eqb_neq in Hne. now rewrite Hne.
Qed.

End ParseHashtags.

(** The scenarios of the specification: [extract("#кот собака", "space")],
    with the Cyrillic letters as code points, and [extract("", mode)]. *)
Example parse_hashtags_space_scenario :
  parse_hashtags
    (VStr [35; 1082; 1086; 1090; 32; 1089; 1086; 1073; 1072; 1082; 1072]%N)
    (VStr (py "space"))
  = Ok {[ [35; 1082; 1086; 1090]%N;
          [35; 1089; 1086; 1073; 1072; 1082; 1072]%N ]}.
Proof. vm_compute. reflexivity. Qed.

Example parse_hashtags_empty_string (format : pyval) :
  parse_hashtags (VStr (py "")) format = Ok ∅.
Proof. reflexivity. Qed.

(** C3, as stated, fails: the token [##a] gives the tag [##a], which starts
    with two [#]. *)
Lemma space_mode_keeps_double_hash :
  parse_hashtags (VStr (py "##a")) (VStr (py "space")) = Ok {[ py "##a" ]}
  /\ one_leading_hash (py "##a") = false.
Proof. split; [vm_compute|]; reflexivity. Qed.

(** C3, amended: in [space] mode every element is [#] followed by the
    stripped token with a single leading [#] removed if present; so it starts
    with [#], a token that starts with [#] is kept as it is, and the element
    starts with exactly one [#] exactly when its token does not start with
    [##]. *)
Theorem parse_hashtags_space_leading_hash (s : str) :
  exists tags,
    parse_hashtags (VStr s) (VStr (py "space")) = Ok tags /\
    forall x, x ∈ tags <->
      exists v, v ∈ split s /\
        x = py "#" ++ removeprefix (strip v) (py "#") /\
        x = (if startswith v (py "#") then v else py "#" ++ v) /\
        startswith x (py "#") = true /\
        one_leading_hash x = negb (startswith v (py "##")).
Proof.
  eexists. split; [apply parse_hashtags_space_eq|].
  intros x. rewrite elem_of_list_to_set, list_elem_of_In, in_map_iff.
  split.
  - intros (v & <- & Hv). apply list_elem_of_In in Hv.
    exists v. rewrite (strip_token s v Hv).
    repeat split; try assumption.
    + apply space_tag_of_token.
    + apply space_tag_one_leading_hash.
  - intros (v & Hv & -> & _). exists v. split; [reflexivity|].
    now apply list_elem_of_In.
Qed.

(** C4, as stated, fails at the empty string: the empty-input guard returns
    the empty set before the format is looked at. *)
Lemma unsupported_format_empty_string_no_error :
  parse_hashtags (VStr (py "")) (VStr (py "bogus")) = Ok ∅
  /\ parse_hashtags (VStr (py "")) (VStr (py "bogus")) <> Raise ValueError.
Proof. split; [reflexivity | discriminate]. Qed.

(** C4, amended: for every non-empty string, a format other than ['comma'],
    ['space'] and ['hash'] raises [ValueError]; for the empty string the
    call returns the empty set, whatever the format. *)
Theorem parse_hashtags_unsupported_format (s : str) (format : pyval) :
  s <> [] ->
  format <> VStr (py "comma") ->
  format <> VStr (py "space") ->
  format <> VStr (py "hash") ->
  parse_hashtags (VStr s) format = Raise ValueError
  /\ parse_hashtags (VStr []) format = Ok ∅.
Proof.
  intros Hs Hc Hsp Hh. split; [|reflexivity].
  destruct s as [|c s]; [contradiction|]. unfold parse_hashtags.
  now rewrite !eq_lit_false.
Qed.

Lemma parse_hashtags_unsupported_format_witness :
  parse_hashtags (VStr (py "a b")) (VStr (py "bogus")) = Raise ValueError
  /\ parse_hashtags (VStr []) (VStr (py "bogus")) = Ok ∅.
Proof.
  apply (parse_hashtags_unsupported_format (py "a b") (VStr (py "bogus")));
    discriminate.
Defined.

(** C5, as stated, fails twice: on the empty string, where the code returns
    the empty set and the split has one empty piece; and on whitespace other
    than U+0020 (here a tab), which the code keeps. *)
Lemma comma_mode_differs_from_spec_wording :
  (parse_hashtags (VStr (py "")) (VStr (py "comma")) = Ok ∅
   /\ extract_comma_spec (py "") = {[ py "#" ]}
   /\ parse_hashtags (VStr (py "")) (VStr (py "comma"))
      <> Ok (extract_comma_spec (py "")))
  /\
  (parse_hashtags (VStr [97; 9; 98]%N) (VStr (py "comma"))
   = Ok {[ [35; 97; 9; 98]%N ]}
   /\ extract_comma_spec [97; 9; 98]%N = {[ [35; 97; 98]%N ]}
   /\ parse_hashtags (VStr [97; 9; 98]%N) (VStr (py "comma"))
      <> Ok (extract_comma_spec [97; 9; 98]%N)).
Proof.
  assert (E1 : extract_comma_spec (py "") = {[ py "#" ]})
    by (vm_compute; reflexivity).
  assert (E2 : extract_comma_spec [97; 9; 98]%N = {[ [35; 97; 98]%N ]})
    by (vm_compute; reflexivity).
  assert (P2 : parse_hashtags (VStr [97; 9; 98]%N) (VStr (py "comma"))
               = Ok {[ [35; 97; 9; 98]%N ]})
    by (vm_compute; reflexivity).
  repeat split; try assumption; try reflexivity.
  - rewrite E1. intros Heq. apply Ok_inj in Heq.
    assert (Hin : py "#" ∈ (∅ : gset str))
      by (rewrite Heq; now apply elem_of_singleton).
    now apply not_elem_of_empty in Hin.
  - rewrite E2, P2. intros Heq. apply Ok_inj in Heq.
    assert (Hin : [35; 97; 98]%N ∈ ({[ [35; 97; 9; 98]%N ]} : gset str))
      by (rewrite Heq; now apply elem_of_singleton).
    apply elem_of_singleton in Hin. discriminate.
Qed.

(** C5, amended: for every non-empty string, [comma] mode gives the set of
    [#] prepended to each piece of the split on [,] with its U+0020
    characters removed (other whitespace is kept); this is the set of the
    specification's wording when the string holds no other whitespace; a
    piece that starts with [#] gives a tag that starts with [##]. The empty
    string gives the empty set. *)
Theorem parse_hashtags_comma_pieces (s : str) :
  s <> [] ->
  exists tags,
    parse_hashtags (VStr s) (VStr (py "comma")) = Ok tags /\
    tags = list_to_set (map (fun p => py "#" ++ remove_spaces p)
                            (split_sep chr_comma s)) /\
    (Forall (fun c => isspace c = true -> c = chr_space) s ->
     tags = extract_comma_spec s) /\
    (forall p, p ∈ split_sep chr_comma s -> startswith p (py "#") = true ->
       startswith (py "#" ++ remove_spaces p) (py "##") = true) /\
    parse_hashtags (VStr []) (VStr (py "comma")) = Ok ∅.
Proof.
  intros Hs. eexists. split; [now apply parse_hashtags_comma_eq|].
  split; [|split; [|split; [|reflexivity]]].
  - f_equal. apply map_ext. intros p.
    now rewrite replace_space_remove_spaces.
  - intros Hws. unfold extract_comma_spec. f_equal.
    apply map_ext_in. intros p Hp. f_equal.
    rewrite replace_space_remove_spaces.
    assert (Hpws : Forall (fun c => isspace c = true -> c = chr_space) p).
    { apply Forall_forall. intros c Hc.
      rewrite Forall_forall in Hws. apply Hws.
      rewrite <- (join_split_sep chr_comma s).
      clear -Hp Hc. induction (split_sep chr_comma s) as [|q qs IH];
        [contradiction|].
      destruct Hp as [->|Hp].
      - destruct qs; cbn [join]; [exact Hc|].
        apply elem_of_app. now left.
      - destruct qs as [|q' qs]; [contradiction|]. cbn [join].
        apply elem_of_app. right. right. now apply IH. }
    clear -Hpws. unfold remove_spaces, remove_whitespace.
    induction Hpws as [|c p Hc _ IH]; [reflexivity|].
    cbn [List.filter]. rewrite IH.
    destruct (N.eqb_spec c chr_space) as [->|Hne]; [reflexivity|].
    destruct (isspace c) eqn:Ec; [|reflexivity].
    now specialize (Hc eq_refl).
  - intros p _ Hp. change (py "#") with [35%N] in *.
    change (py "##") with [35%N; 35%N].
    destruct p as [|c p]; [discriminate|].
    cbn in Hp. apply andb_true_iff in Hp as [Hc _].
    apply N.eqb_eq in Hc as ->. reflexivity.
Qed.

Lemma parse_hashtags_comma_pieces_witness :
  exists tags,
    parse_hashtags (VStr (py "a b,#c")) (VStr (py "comma")) = Ok tags /\
    tags = list_to_set (map (fun p => py "#" ++ remove_spaces p)
                            (split_sep chr_comma (py "a b,#c"))) /\
    (Forall (fun c => isspace c = true -> c = chr_space) (py "a b,#c") ->
     tags = extract_comma_spec (py "a b,#c")) /\
    (forall p, p ∈ split_sep chr_comma (py "a b,#c") ->
       startswith p (py "#") = true ->
       startswith (py "#" ++ remove_spaces p) (py "##") = true) /\
    parse_hashtags (VStr []) (VStr (py "comma")) = Ok ∅.
Proof. apply (parse_hashtags_comma_pieces (py "a b,#c")). discriminate. Defined.

(** C6: in [hash] mode the result holds exactly the whitespace-split tokens
    that start with [#], each unchanged; the other tokens are dropped. *)
Theorem parse_hashtags_hash_exactly_hash_tokens (s : str) :
  exists tags,
    parse_hashtags (VStr s) (VStr (py "hash")) = Ok tags /\
    forall x, x ∈ tags <-> x ∈ split s /\ startswith x (py "#") = true.
Proof.
  eexists. split; [apply parse_hashtags_hash_eq|].
  intros x. rewrite elem_of_list_to_set, list_elem_of_In, in_map_iff.
  split.
  - intros (v & <- & Hv). apply filter_In in Hv as [Hv Hh].
    apply list_elem_of_In in Hv. rewrite (strip_token s v Hv). now split.
  - intros [Hx Hh]. exists x. split; [now apply (strip_token s)|].
    apply filter_In. split; [now apply list_elem_of_In | exact Hh].
Qed.

(** ** [add_hashtags] *)

Section AddHashtagsFacts.
Context `{SetPop}.

(** What holds when the loop started on [t], [hs] is left with [r]. *)
Record loop_post (t : str) (hs : gset str) (lim : Z) (r : loop_result)
  : Prop := {
  post_text : lr_text r = t ++ blocks (lr_appended r);
  post_nodup : NoDup (popped r);
  post_popped_in : Forall (fun x => x ∈ hs) (popped r);
  post_hashtags : lr_hashtags r = hs ∖ list_to_set (popped r);
  post_iters : lr_iters r = length (popped r);
  post_size : (size (lr_hashtags r) + lr_iters r = size hs)%nat;
  post_exhausted : lr_rejected r = None -> lr_hashtags r = ∅;
  post_rejected : forall ht, lr_rejected r = Some ht ->
                    lim <= len (lr_text r) + len ht + 1;
  post_bound : lr_text r = t \/ len (lr_text r) < lim
}.

Lemma size_pop (hs : gset str) (ht : str) :
  ht ∈ hs -> (size (hs ∖ {[ht]}) + 1 = size hs)%nat.
Proof.
  intros Hin. rewrite size_difference by set_solver.
  rewrite size_singleton.
  assert (size hs <> 0)%nat
    by (apply size_non_empty_iff; set_solver).
  lia.
Qed.

Lemma len_append (t ht : str) : len (t ++ py " " ++ ht) = len t + len ht + 1.
Proof. unfold len. rewrite !length_app. cbn [py length]. lia. Qed.

Lemma loop_post_empty (t : str) (lim : Z) :
  loop_post t ∅ lim
    {| lr_text := t; lr_hashtags := ∅; lr_appended := [];
       lr_rejected := None; lr_iters := 0 |}.
Proof.
  split; cbn.
  - now rewrite app_nil_r.
  - constructor.
  - constructor.
  - set_solver.
  - reflexivity.
  - now rewrite size_empty.
  - reflexivity.
  - discriminate.
  - now left.
Qed.

(** With fuel for every element the loop is left, in the state
    [loop_post] describes. *)
Lemma while_hashtags_post (fuel : nat) : forall (t : str) (hs : gset str) lim,
  (size hs <= fuel)%nat ->
  exists r, while_hashtags fuel t hs lim = Some r /\ loop_post t hs lim r.
Proof.
  induction fuel as [|fuel IH]; intros t hs lim Hfuel.
  - assert (Hs : hs = ∅).
    { apply leibniz_equiv, size_empty_inv. lia. }
    subst hs. cbn. eexists. split; [reflexivity|]. apply loop_post_empty.
  - cbn [while_hashtags]. destruct (decide (hs = ∅)) as [->|Hne].
    + eexists. split; [reflexivity|]. apply loop_post_empty.
    + pose proof (pop_elem_in hs Hne) as Hin.
      pose proof (size_pop hs _ Hin) as Hsz.
      cbv zeta. destruct (Z.ltb_spec (len t + len (pop_elem hs) + 1) lim)
        as [Hfit|Hnofit].
      * destruct (IH (t ++ py " " ++ pop_elem hs) (hs ∖ {[pop_elem hs]}) lim)
          as (r & -> & P); [lia|].
        destruct P as [Ptext Pnd Pin Phs Pit Psz Pex Prej Pbd].
        eexists. split; [reflexivity|].
        split; cbn [lr_text lr_hashtags lr_appended lr_rejected lr_iters
                    popped app].
        -- rewrite Ptext. unfold blocks. cbn [flat_map].
           now rewrite <- !app_assoc.
        -- apply NoDup_cons. split; [|exact Pnd].
           intros Hp. rewrite Forall_forall in Pin.
           apply Pin in Hp. apply elem_of_difference in Hp as [_ Hp].
           apply Hp. now apply elem_of_singleton.
        -- constructor; [exact Hin|].
           eapply Forall_impl; [exact Pin|]. cbn. intros x Hx.
           now apply elem_of_difference in Hx as [Hx _].
        -- rewrite Phs. cbn [list_to_set foldr].
           apply difference_difference_l_L.
        -- fold (popped r). now rewrite Pit.
        -- lia.
        -- exact Pex.
        -- exact Prej.
        -- right. destruct Pbd as [->|Hlt]; [|exact Hlt].
           rewrite len_append. lia.
      * eexists. split; [reflexivity|].
        split; cbn [lr_text lr_hashtags lr_appended lr_rejected lr_iters
                    popped app option_list option_rect].
        -- unfold blocks. cbn. now rewrite app_nil_r.
        -- apply NoDup_singleton.
        -- now repeat constructor.
        -- cbn. now rewrite union_empty_r_L.
        -- reflexivity.
        -- lia.
        -- discriminate.
        -- intros ht [= <-]. lia.
        -- now left.
Qed.

(** More fuel does not change the result. *)
Lemma while_hashtags_fuel_mono (fuel : nat) :
  forall (fuel' : nat) (t : str) (hs : gset str) lim r,
  while_hashtags fuel t hs lim = Some r -> (fuel <= fuel')%nat ->
  while_hashtags fuel' t hs lim = Some r.
Proof.
  induction fuel as [|fuel IH]; intros fuel' t hs lim r Hr Hle.
  - destruct fuel'; cbn in *;
      destruct (decide (hs = ∅)); congruence.
  - destruct fuel' as [|fuel']; [lia|].
    cbn [while_hashtags] in *. destruct (decide (hs = ∅)); [exact Hr|].
    cbv zeta in *.
    destruct (len t + len (pop_elem hs) + 1 <? lim); [|exact Hr].
    destruct (while_hashtags fuel _ _ lim) as [r'|] eqn:E; [|discriminate].
    rewrite (IH fuel' _ _ _ _ E) by lia. exact Hr.
Qed.

(** A call on a string and a set returns. *)
Lemma add_hashtags_returns (t : str) (hs : gset str) (lim : Z) :
  exists r,
    while_hashtags (size hs) t hs lim = Some r /\
    add_hashtags (VStr t) (VSet hs) lim
    = Some (Ok (lr_text r), VSet (lr_hashtags r)) /\
    loop_post t hs lim r.
Proof.
  destruct (while_hashtags_post (size hs) t hs lim) as (r & Hr & P); [lia|].
  exists r. split; [exact Hr|]. split; [|exact P].
  unfold add_hashtags. now rewrite Hr.
Qed.

End AddHashtagsFacts.

Section AddHashtagsShape.
Context `{SetPop}.

Lemma blocks_nil_inv (l : list str) : blocks l = [] -> l = [].
Proof. destruct l; [reflexivity | discriminate]. Qed.

Lemma len_app_blocks (t : str) (l : list str) :
  len t <= len (t ++ blocks l).
Proof. unfold len. rewrite length_app. lia. Qed.

(** A text that is at the limit already gets nothing appended. *)
Lemma loop_post_over_long (t : str) (hs : gset str) (lim : Z) r :
  loop_post t hs lim r -> lim <= len t ->
  lr_text r = t /\ lr_appended r = [].
Proof.
  intros P Hlim. pose proof (post_text _ _ _ _ P) as Ht.
  assert (Heq : lr_text r = t).
  { destruct (post_bound _ _ _ _ P) as [Heq|Hlt]; [exact Heq|].
    pose proof (len_app_blocks t (lr_appended r)) as Hle.
    rewrite <- Ht in Hle. lia. }
  split; [exact Heq|]. apply blocks_nil_inv.
  rewrite Heq in Ht. rewrite <- (app_nil_r t) in Ht at 1.
  now apply app_inv_head in Ht.
Qed.

(** On a one-element set the pop is determined: the tag is appended
    exactly when the strict test holds. *)
Lemma add_hashtags_singleton (t ht : str) (lim : Z) :
  add_hashtags (VStr t) (VSet {[ ht ]}) lim =
  Some (Ok (if len t + len ht + 1 <? lim then t ++ py " " ++ ht else t),
        VSet ∅).
Proof.
  unfold add_hashtags. rewrite size_singleton. cbn [while_hashtags].
  assert (Hne : ({[ ht ]} : gset str) <> ∅).
  { intros Heq. assert (Hin : ht ∈ ({[ ht ]} : gset str))
      by now apply elem_of_singleton.
    rewrite Heq in Hin. now apply not_elem_of_empty in Hin. }
  destruct (decide (({[ ht ]} : gset str) = ∅)) as [He|_]; [contradiction|].
  pose proof (pop_elem_in _ Hne) as Hin. apply elem_of_singleton in Hin.
  cbv zeta. rewrite Hin. rewrite difference_diag_L.
  destruct (len t + len ht + 1 <? lim); [|reflexivity].
  destruct (decide ((∅ : gset str) = ∅)) as [_|Hn]; [reflexivity|].
  now contradiction Hn.
Qed.

End AddHashtagsShape.

Section LoopTrace.
Context `{SetPop}.

(** The tags the loop popped are the pops of the set, in order, and every
    appended tag passed the test when it was popped. *)
Lemma while_hashtags_trace (fuel : nat) :
  forall (t : str) (hs : gset str) (lim : Z) r,
  while_hashtags fuel t hs lim = Some r ->
  pop_sequence hs (popped r) /\ all_fit t lim (lr_appended r).
Proof.
  induction fuel as [|fuel IH]; intros t hs lim r Hr; cbn [while_hashtags] in Hr.
  - destruct (decide (hs = ∅)); [|discriminate].
    injection Hr as <-. now split.
  - destruct (decide (hs = ∅)) as [|Hne]; [injection Hr as <-; now split|].
    cbv zeta in Hr.
    destruct (Z.ltb_spec (len t + len (pop_elem hs) + 1) lim) as [Hfit|Hno].
    + destruct (while_hashtags fuel _ _ lim) as [r'|] eqn:E; [|discriminate].
      injection Hr as <-. destruct (IH _ _ _ _ E) as [Hseq Hall].
      unfold popped in *. cbn [lr_appended lr_rejected app pop_sequence all_fit].
      repeat split; assumption.
    + injection Hr as <-. unfold popped.
      cbn [lr_appended lr_rejected app option_list option_rect pop_sequence
           all_fit].
      repeat split; assumption.
Qed.

Lemma pop_sequence_app (l : list str) : forall (hs : gset str) (k : list str),
  pop_sequence hs (l ++ k) ->
  pop_sequence hs l /\ pop_sequence (hs ∖ list_to_set l) k.
Proof.
  induction l as [|x l IH]; intros hs k Hseq; cbn [app pop_sequence] in *.
  - split; [exact I|]. cbn. now rewrite difference_empty_L.
  - destruct Hseq as (Hne & Hx & Hseq). destruct (IH _ _ Hseq) as [Hl Hk].
    repeat split; try assumption.
    cbn [list_to_set foldr]. now rewrite <- difference_difference_l_L.
Qed.

(** The loop is left at the first tag of the pop order that does not fit:
    the tags before it are appended, it is rejected, and no other tag is
    popped. *)
Lemma while_hashtags_stops_at (l : list str) :
  forall (fuel : nat) (t : str) (hs : gset str) (lim : Z) r (ht : str),
  while_hashtags fuel t hs lim = Some r ->
  pop_sequence hs (l ++ [ht]) ->
  all_fit t lim l ->
  lim <= len (t ++ blocks l) + len ht + 1 ->
  lr_appended r = l /\ lr_rejected r = Some ht
  /\ lr_text r = t ++ blocks l
  /\ lr_hashtags r = hs ∖ list_to_set (l ++ [ht])
  /\ lr_iters r = S (length l).
Proof.
  induction l as [|x l IH]; intros fuel t hs lim r ht Hr Hseq Hall Hno;
    cbn [app pop_sequence all_fit] in Hseq, Hall.
  - destruct Hseq as (Hne & -> & _). cbn [blocks flat_map] in Hno.
    rewrite app_nil_r in Hno.
    destruct fuel as [|fuel]; cbn [while_hashtags] in Hr;
      destruct (decide (hs = ∅)); try contradiction; [discriminate|].
    cbv zeta in Hr.
    destruct (Z.ltb_spec (len t + len (pop_elem hs) + 1) lim); [lia|].
    injection Hr as <-. cbn. rewrite app_nil_r, union_empty_r_L.
    repeat split.
  - destruct Hseq as (Hne & -> & Hseq). destruct Hall as [Hfit Hall].
    destruct fuel as [|fuel]; cbn [while_hashtags] in Hr;
      destruct (decide (hs = ∅)); try contradiction; [discriminate|].
    cbv zeta in Hr.
    destruct (Z.ltb_spec (len t + len (pop_elem hs) + 1) lim); [|lia].
    destruct (while_hashtags fuel _ _ lim) as [r'|] eqn:E; [|discriminate].
    injection Hr as <-.
    assert (Htext : (t ++ py " " ++ pop_elem hs) ++ blocks l
                    = t ++ blocks (pop_elem hs :: l)).
    { unfold blocks. cbn [flat_map]. now rewrite <- !app_assoc. }
    destruct (IH _ _ _ _ _ _ E Hseq Hall) as (Ha & Hj & Ht & Hh & Hi).
    { now rewrite Htext. }
    cbn [lr_appended lr_rejected lr_text lr_hashtags lr_iters length].
    rewrite Ha, Hj, Ht, Hh, Hi, Htext. repeat split.
    cbn [app list_to_set foldr]. now rewrite difference_difference_l_L.
Qed.

(** No tag is rejected exactly when every tag of the set is appended. *)
Lemma loop_post_all_appended (t : str) (hs : gset str) (lim : Z) r :
  loop_post t hs lim r ->
  lr_rejected r = None <-> list_to_set (lr_appended r) = hs.
Proof.
  intros [Ptext Pnd Pin Phs Pit Psz Pex Prej Pbd]. unfold popped in *. split.
  - intros Hnone. specialize (Pex Hnone). rewrite Hnone in Pin, Phs.
    cbn [option_list option_rect] in Pin, Phs. rewrite app_nil_r in Pin, Phs.
    apply set_eq. intros x. rewrite elem_of_list_to_set. split.
    + intros Hx. rewrite Forall_forall in Pin. now apply Pin.
    + intros Hx. destruct (decide (x ∈ lr_appended r)) as [Hy|Hn]; [exact Hy|].
      assert (Hin : x ∈ lr_hashtags r).
      { rewrite Phs. apply elem_of_difference. split; [exact Hx|].
        now rewrite elem_of_list_to_set. }
      rewrite Pex in Hin. now apply not_elem_of_empty in Hin.
  - intros Hall. destruct (lr_rejected r) as [ht|]; [exfalso|reflexivity].
    cbn [option_list option_rect] in Pnd, Pin.
    apply NoDup_app in Pnd as (_ & Hdisj & _).
    apply Forall_app in Pin as [_ Pin]. apply List.Forall_inv in Pin.
    rewrite <- Hall in Pin. apply elem_of_list_to_set in Pin.
    apply (Hdisj ht Pin). now left.
Qed.

End LoopTrace.

(** The failing input of C1: whichever tag is popped first does not fit, the
    loop breaks, and the other tag is still in the set when the call returns
    (the docstring of [add_hashtags] says the set is emptied). *)
Theorem add_hashtags_break_leaves_tags `{SetPop} :
  exists r hs',
    add_hashtags (VStr (py "Hello"))
                 (VSet {[ py "#aaaaa"; py "#bbbbb" ]}) 5
    = Some (Ok r, VSet hs')
    /\ r = py "Hello" /\ size hs' = 1%nat /\ hs' <> ∅.
Proof.
  destruct (add_hashtags_returns (py "Hello")
              {[ py "#aaaaa"; py "#bbbbb" ]} 5) as (r & _ & Hcall & P).
  exists (lr_text r), (lr_hashtags r). split; [exact Hcall|].
  destruct (loop_post_over_long _ _ _ _ P) as [Ht Happ];
    [vm_compute; discriminate|].
  assert (Hsize : size ({[ py "#aaaaa"; py "#bbbbb" ]} : gset str) = 2%nat)
    by (vm_compute; reflexivity).
  pose proof (post_size _ _ _ _ P) as Hsz.
  pose proof (post_iters _ _ _ _ P) as Hit.
  pose proof (post_exhausted _ _ _ _ P) as Hex.
  unfold popped in Hit. rewrite Happ in Hit. rewrite Hsize in Hsz.
  assert (Hone : size (lr_hashtags r) = 1%nat).
  { destruct (lr_rejected r) as [ht|]; cbn in Hit; [lia|].
    rewrite (Hex eq_refl), size_empty in Hsz. lia. }
  split; [exact Ht|]. split; [exact Hone|].
  intros He. rewrite He, size_empty in Hone. discriminate.
Qed.

(** C2, as stated, fails: a text that is over the limit is returned as it
    is. *)
Lemma add_hashtags_over_limit_text :
  add_hashtags (VStr (py "Hello")) (VSet ∅) 3 = Some (Ok (py "Hello"), VSet ∅)
  /\ 0 < 3 /\ ~ len (py "Hello") < 3.
Proof. split; [reflexivity|]. split; [reflexivity|]. vm_compute. discriminate. Qed.

(** C2, amended: when the text is shorter than the limit, the returned
    string is shorter than the limit; the test for appending is the strict
    [len(text) + len(tag) + 1 < lim], as the one-element set shows for every
    tag. *)
Theorem add_hashtags_below_limit `{SetPop} (t : str) (hs : gset str) (lim : Z) :
  len t < lim ->
  (exists r hs',
     add_hashtags (VStr t) (VSet hs) lim = Some (Ok r, VSet hs')
     /\ len r < lim)
  /\ forall ht,
       add_hashtags (VStr t) (VSet {[ ht ]}) lim =
       Some (Ok (if len t + len ht + 1 <? lim then t ++ py " " ++ ht else t),
             VSet ∅).
Proof.
  intros Hlt. split; [|intros ht; apply add_hashtags_singleton].
  destruct (add_hashtags_returns t hs lim) as (r & _ & Hcall & P).
  exists (lr_text r), (lr_hashtags r). split; [exact Hcall|].
  destruct (post_bound _ _ _ _ P) as [->|Hb]; assumption.
Qed.

Lemma add_hashtags_below_limit_witness :
  (exists r hs',
     add_hashtags (VStr (py "Hello")) (VSet {[ py "#a"; py "#bb" ]}) 10
     = Some (Ok r, VSet hs')
     /\ len r < 10)
  /\ forall ht,
       add_hashtags (VStr (py "Hello")) (VSet {[ ht ]}) 10 =
       Some (Ok (if len (py "Hello") + len ht + 1 <? 10
                 then py "Hello" ++ py " " ++ ht else py "Hello"),
             VSet ∅).
Proof.
  apply (add_hashtags_below_limit (py "Hello") {[ py "#a"; py "#bb" ]} 10).
  reflexivity.
Defined.

(** The scenarios of the specification, with the first of [elements]
    popped: ["#bb"] is popped and fits, ["#a"] is popped and does not. *)
Example add_hashtags_hello_scenario :
  add_hashtags (VStr (py "Hello")) (VSet {[ py "#a"; py "#bb" ]}) 10
  = Some (Ok (py "Hello #bb"), VSet ∅)
  /\ add_hashtags (VStr (py "")) (VSet ∅) 50 = Some (Ok (py ""), VSet ∅).
Proof. split; vm_compute; reflexivity. Qed.

(** The result can be one short of the limit, and a tag that would bring it
    to the limit is not appended. *)
Example add_hashtags_limit_minus_one :
  add_hashtags (VStr (py "Hello")) (VSet {[ py "#a" ]}) 9
  = Some (Ok (py "Hello #a"), VSet ∅)
  /\ add_hashtags (VStr (py "Hello")) (VSet {[ py "#a" ]}) 8
     = Some (Ok (py "Hello"), VSet ∅).
Proof. split; rewrite add_hashtags_singleton; reflexivity. Qed.

(** C7: both functions raise [TypeError] on a wrongly typed argument before
    anything else: [parse_hashtags] for every non-string first argument,
    whatever the format; [add_hashtags] for every non-string text or non-set
    hashtags, which it leaves as they were. *)
Theorem type_errors_fail_fast `{SetPop} (v format text hashtags : pyval)
        (lim : Z) :
  is_str v = false ->
  is_str text = false \/ is_set hashtags = false ->
  parse_hashtags v format = Raise TypeError
  /\ add_hashtags text hashtags lim = Some (Raise TypeError, hashtags).
Proof.
  intros Hv Hargs. split.
  - destruct v; try reflexivity. discriminate.
  - destruct text; try reflexivity.
    destruct Hargs as [Ht|Hs]; [discriminate|].
    destruct hashtags; try reflexivity. discriminate.
Qed.

Lemma type_errors_fail_fast_witness :
  parse_hashtags (VInt 123) (VStr (py "comma")) = Raise TypeError
  /\ add_hashtags (VStr (py "Hello")) (VList [py "#a"]) 10
     = Some (Raise TypeError, VList [py "#a"]).
Proof.
  apply (type_errors_fail_fast (VInt 123) (VStr (py "comma"))
                               (VStr (py "Hello")) (VList [py "#a"]) 10).
  - reflexivity.
  - right. reflexivity.
Defined.

(** C8: the loop is left after at most [|hashtags|] runs of its body, each
    of which pops one element of the set, in the order of [set.pop()]; the
    loop goes on past a tag only when the tag fits; it is left either with
    the set exhausted, after [|hashtags|] runs, or right after the first tag
    of the pop order that does not fit, which is the last one popped. *)
Theorem add_hashtags_terminates `{SetPop} (t : str) (hs : gset str) (lim : Z)
        (fuel : nat) :
  (size hs <= fuel)%nat ->
  exists r,
    while_hashtags fuel t hs lim = Some r
    /\ add_hashtags (VStr t) (VSet hs) lim
       = Some (Ok (lr_text r), VSet (lr_hashtags r))
    /\ (lr_iters r <= size hs)%nat
    /\ (size (lr_hashtags r) + lr_iters r = size hs)%nat
    /\ lr_iters r = length (popped r)
    /\ pop_sequence hs (popped r)
    /\ lr_hashtags r = hs ∖ list_to_set (popped r)
    /\ lr_text r = t ++ blocks (lr_appended r)
    /\ all_fit t lim (lr_appended r)
    /\ match lr_rejected r with
       | None => lr_hashtags r = ∅ /\ lr_iters r = size hs
       | Some ht =>
           ht = pop_elem (hs ∖ list_to_set (lr_appended r))
           /\ lim <= len (lr_text r) + len ht + 1
           /\ lr_iters r = S (length (lr_appended r))
           /\ lr_hashtags r = hs ∖ list_to_set (lr_appended r) ∖ {[ ht ]}
       end
    /\ (forall l ht,
          pop_sequence hs (l ++ [ht]) -> all_fit t lim l ->
          lim <= len (t ++ blocks l) + len ht + 1 ->
          lr_iters r = S (length l) /\ lr_text r = t ++ blocks l
          /\ lr_hashtags r = hs ∖ list_to_set (l ++ [ht])).
Proof.
  intros Hfuel.
  destruct (add_hashtags_returns t hs lim) as (r & Hr & Hcall & P).
  destruct (while_hashtags_trace _ _ _ _ _ Hr) as [Hseq Hall].
  exists r. split; [now apply (while_hashtags_fuel_mono (size hs))|].
  split; [exact Hcall|].
  destruct P as [Ptext Pnd Pin Phs Pit Psz Pex Prej Pbd].
  split; [lia|]. do 6 (split; [assumption|]). split.
  - destruct (lr_rejected r) as [ht|] eqn:E.
    + assert (Hpop : popped r = lr_appended r ++ [ht])
        by (unfold popped; now rewrite E).
      rewrite Hpop in Hseq, Phs, Pit.
      apply pop_sequence_app in Hseq as [_ (_ & Hht & _)].
      split; [exact Hht|]. split; [now apply Prej|].
      split; [rewrite Pit, length_app; cbn; lia|].
      rewrite Phs, list_to_set_app_L. cbn [list_to_set foldr].
      now rewrite union_empty_r_L, difference_difference_l_L.
    + specialize (Pex eq_refl). split; [exact Pex|].
      rewrite Pex, size_empty in Psz. lia.
  - intros l ht Hl Hfit Hno.
    destruct (while_hashtags_stops_at l _ _ _ _ _ _ Hr Hl Hfit Hno)
      as (_ & _ & Ht & Hh & Hi).
    now repeat split.
Qed.

Lemma add_hashtags_terminates_witness :
  exists r,
    while_hashtags 5 (py "Hello") {[ py "#a"; py "#bb" ]} 10 = Some r
    /\ add_hashtags (VStr (py "Hello")) (VSet {[ py "#a"; py "#bb" ]}) 10
       = Some (Ok (lr_text r), VSet (lr_hashtags r))
    /\ (lr_iters r <= size ({[ py "#a"; py "#bb" ]} : gset str))%nat
    /\ (size (lr_hashtags r) + lr_iters r
        = size ({[ py "#a"; py "#bb" ]} : gset str))%nat
    /\ lr_iters r = length (popped r)
    /\ pop_sequence {[ py "#a"; py "#bb" ]} (popped r)
    /\ lr_hashtags r = {[ py "#a"; py "#bb" ]} ∖ list_to_set (popped r)
    /\ lr_text r = py "Hello" ++ blocks (lr_appended r)
    /\ all_fit (py "Hello") 10 (lr_appended r)
    /\ match lr_rejected r with
       | None =>
           lr_hashtags r = ∅
           /\ lr_iters r = size ({[ py "#a"; py "#bb" ]} : gset str)
       | Some ht =>
           ht = pop_elem ({[ py "#a"; py "#bb" ]}
                            ∖ list_to_set (lr_appended r))
           /\ 10 <= len (lr_text r) + len ht + 1
           /\ lr_iters r = S (length (lr_appended r))
           /\ lr_hashtags r
              = {[ py "#a"; py "#bb" ]} ∖ list_to_set (lr_appended r)
                  ∖ {[ ht ]}
       end
    /\ (forall l ht,
          pop_sequence {[ py "#a"; py "#bb" ]} (l ++ [ht]) ->
          all_fit (py "Hello") 10 l ->
          10 <= len (py "Hello" ++ blocks l) + len ht + 1 ->
          lr_iters r = S (length l) /\ lr_text r = py "Hello" ++ blocks l
          /\ lr_hashtags r
             = {[ py "#a"; py "#bb" ]} ∖ list_to_set (l ++ [ht])).
Proof.
  apply (add_hashtags_terminates (py "Hello") {[ py "#a"; py "#bb" ]} 10 5).
  vm_compute. lia.
Defined.

(** The run of the witness: ["#bb"] is popped and appended, ["#a"] is popped
    and rejected, after two runs of the body. *)
Example while_hashtags_hello_run :
  while_hashtags 5 (py "Hello") {[ py "#a"; py "#bb" ]} 10
  = Some {| lr_text := py "Hello #bb"; lr_hashtags := ∅;
            lr_appended := [py "#bb"]; lr_rejected := Some (py "#a");
            lr_iters := 2 |}.
Proof. vm_compute. reflexivity. Qed.

(** C9: the tags popped are distinct elements of the set, in the order of
    [set.pop()]; the set is left with exactly the elements that were not
    popped; the text gets the appended tags only, each of which passed the
    test. No tag is rejected exactly when every tag of the set is appended,
    and then the set is left empty. A rejected tag was in the set, is no
    longer in it, is not among the appended ones and is the last one popped,
    so at most one popped tag is not appended. The loop rejects the first
    tag of the pop order that does not fit, and leaves in the set what comes
    after it. *)
Theorem add_hashtags_rejected_tag_dropped `{SetPop} (t : str) (hs : gset str)
        (lim : Z) :
  exists r,
    while_hashtags (size hs) t hs lim = Some r
    /\ add_hashtags (VStr t) (VSet hs) lim
       = Some (Ok (lr_text r), VSet (lr_hashtags r))
    /\ NoDup (popped r)
    /\ (forall x, x ∈ lr_hashtags r <-> x ∈ hs /\ x ∉ popped r)
    /\ lr_text r = t ++ blocks (lr_appended r)
    /\ (length (popped r) <= length (lr_appended r) + 1)%nat
    /\ (forall ht, lr_rejected r = Some ht ->
          ht ∈ hs /\ (ht ∉ lr_hashtags r) /\ (ht ∉ lr_appended r)
          /\ popped r = lr_appended r ++ [ht]
          /\ lim <= len (lr_text r) + len ht + 1)
    /\ pop_sequence hs (popped r)
    /\ all_fit t lim (lr_appended r)
    /\ (lr_rejected r = None <-> list_to_set (lr_appended r) = hs)
    /\ (lr_rejected r = None -> lr_hashtags r = ∅)
    /\ (forall l ht,
          pop_sequence hs (l ++ [ht]) -> all_fit t lim l ->
          lim <= len (t ++ blocks l) + len ht + 1 ->
          lr_rejected r = Some ht /\ lr_appended r = l
          /\ lr_text r = t ++ blocks l
          /\ lr_hashtags r = hs ∖ list_to_set (l ++ [ht])).
Proof.
  destruct (add_hashtags_returns t hs lim) as (r & Hr & Hcall & P).
  destruct (while_hashtags_trace _ _ _ _ _ Hr) as [Hseq Hall].
  pose proof (loop_post_all_appended _ _ _ _ P) as Hnone.
  exists r. destruct P as [Ptext Pnd Pin Phs Pit Psz Pex Prej Pbd].
  assert (Hmem : forall x, x ∈ lr_hashtags r <-> x ∈ hs /\ x ∉ popped r).
  { intros x. rewrite Phs, elem_of_difference, elem_of_list_to_set.
    reflexivity. }
  repeat (split; [assumption|]). split; [|split].
  - unfold popped. rewrite length_app.
    destruct (lr_rejected r); cbn; lia.
  - intros ht Hrej.
    assert (Hpop : popped r = lr_appended r ++ [ht])
      by (unfold popped; now rewrite Hrej).
    assert (Hin : ht ∈ popped r)
      by (rewrite Hpop; apply elem_of_app; right; now left).
    split; [rewrite Forall_forall in Pin; now apply Pin|].
    split; [intros Hh; now apply Hmem in Hh as [_ Hn]|].
    split; [|split; [exact Hpop | now apply Prej]].
    rewrite Hpop in Pnd. apply NoDup_app in Pnd as (_ & Hdisj & _).
    intros Happ. apply (Hdisj ht Happ). now left.
  - do 4 (split; [assumption|]).
    intros l ht Hl Hfit Hno.
    destruct (while_hashtags_stops_at l _ _ _ _ _ _ Hr Hl Hfit Hno)
      as (Ha & Hj & Ht & Hh & _).
    now repeat split.
Qed.

(** A run in which a tag is rejected, with the first of [elements] popped:
    neither tag fits, the one popped first is rejected and the other stays
    in the set. *)
Lemma add_hashtags_rejected_tag_dropped_witness :
  exists r,
    while_hashtags (size ({[ py "#aaaaa"; py "#bbbbb" ]} : gset str))
                   (py "Hello") {[ py "#aaaaa"; py "#bbbbb" ]} 5 = Some r
    /\ lr_rejected r = Some (py "#bbbbb")
    /\ lr_appended r = []
    /\ lr_text r = py "Hello"
    /\ lr_hashtags r = {[ py "#aaaaa" ]}.
Proof.
  destruct (add_hashtags_rejected_tag_dropped
              (py "Hello") {[ py "#aaaaa"; py "#bbbbb" ]} 5)
    as (r & Hr & _ & _ & _ & _ & _ & _ & _ & _ & _ & _ & Hstop).
  exists r. split; [exact Hr|].
  destruct (Hstop [] (py "#bbbbb")) as (Hj & Ha & Ht & Hh).
  - vm_compute. repeat split. discriminate.
  - exact I.
  - vm_compute. discriminate.
  - split; [exact Hj|]. split; [exact Ha|]. split; [exact Ht|].
    rewrite Hh. vm_compute. reflexivity.
Defined.

(** C10: the returned string is the text followed by one block, a space and
    a tag, per appended tag; the appended tags are distinct elements of the
    set; a text at or over the limit is returned as it is. *)
Theorem add_hashtags_appends_blocks `{SetPop} (t : str) (hs : gset str)
        (lim : Z) :
  exists r hs' appended,
    add_hashtags (VStr t) (VSet hs) lim = Some (Ok r, VSet hs')
    /\ r = t ++ blocks appended
    /\ blocks appended = flat_map (fun ht => chr_space :: ht) appended
    /\ Forall (fun ht => ht ∈ hs) appended
    /\ NoDup appended
    /\ (lim <= len t -> r = t).
Proof.
  destruct (add_hashtags_returns t hs lim) as (r & _ & Hcall & P).
  exists (lr_text r), (lr_hashtags r), (lr_appended r).
  split; [exact Hcall|]. split; [apply (post_text _ _ _ _ P)|].
  split; [reflexivity|].
  pose proof (post_popped_in _ _ _ _ P) as Hin.
  pose proof (post_nodup _ _ _ _ P) as Hnd.
  unfold popped in Hin, Hnd.
  apply Forall_app in Hin as [Hin _]. apply NoDup_app in Hnd as (Hnd & _).
  split; [exact Hin|]. split; [exact Hnd|].
  intros Hlim. now apply (loop_post_over_long t hs lim r P).
Qed.

(** * Further properties of the code *)

(** ** Splitting *)

Section SplitFacts.

(** [split(sep)] of two parts joined by the separator. *)
Lemma split_sep_app sep (a b : str) :
  split_sep sep (a ++ sep :: b) = split_sep sep a ++ split_sep sep b.
Proof.
  induction a as [|c a IH]; cbn [app split_sep].
  - now rewrite N.eqb_refl.
  - destruct (c =? sep)%N; [now rewrite IH|].
    rewrite IH. pose proof (split_sep_nonempty sep a) as Hn.
    destruct (split_sep sep a) as [|p ps]; [contradiction | reflexivity].
Qed.

(** [split()] of two parts joined by a whitespace character. *)
Lemma split_go_app (a : str) : forall tok w (b : str),
  isspace w = true ->
  split_go tok (a ++ w :: b) = split_go tok a ++ split_go [] b.
Proof.
  induction a as [|c a IH]; intros tok w b Hw; cbn [app split_go].
  - rewrite Hw. destruct tok; reflexivity.
  - destruct (isspace c).
    + destruct tok; now rewrite IH.
    + now apply IH.
Qed.

Lemma split_app (a b : str) w :
  isspace w = true -> split (a ++ w :: b) = split a ++ split b.
Proof. apply split_go_app. Qed.

(** Reading a run without whitespace extends the token. *)
Lemma split_go_nospace (u : str) : forall tok rest,
  Forall (fun c => isspace c = false) u ->
  split_go tok (u ++ rest) = split_go (rev u ++ tok) rest.
Proof.
  induction u as [|c u IH]; intros tok rest Hu; [reflexivity|].
  inversion Hu as [|? ? Hc Hu']; subst. cbn [app split_go]. rewrite Hc.
  rewrite IH by assumption. cbn [rev]. now rewrite <- app_assoc.
Qed.

Lemma split_token (u : str) :
  u <> [] -> Forall (fun c => isspace c = false) u -> split u = [u].
Proof.
  intros Hne Hu. unfold split.
  rewrite <- (app_nil_r u) at 1. rewrite split_go_nospace by assumption.
  rewrite app_nil_r. cbn [split_go].
  destruct (rev u) as [|c r] eqn:E.
  - apply (f_equal (@rev N)) in E. rewrite rev_involutive in E. contradiction.
  - now rewrite <- E, rev_involutive.
Qed.

(** A string of whitespace has no token. *)
Lemma split_whitespace (s : str) :
  Forall (fun c => isspace c = true) s -> split s = [].
Proof.
  unfold split. induction 1 as [|c s Hc _ IH]; [reflexivity|].
  cbn [split_go]. now rewrite Hc.
Qed.

(** The blocks the loop appends split back into the tags. *)
Lemma split_app_blocks (t : str) (l : list str) :
  Forall (fun ht => ht <> [] /\ Forall (fun c => isspace c = false) ht) l ->
  split (t ++ blocks l) = split t ++ l.
Proof.
  intros Hl. revert t. induction Hl as [|ht l [Hne Hws] _ IH]; intros t.
  - cbn. now rewrite !app_nil_r.
  - change (blocks (ht :: l)) with (chr_space :: (ht ++ blocks l)).
    rewrite split_app by reflexivity. f_equal.
    rewrite IH, split_token by assumption. reflexivity.
Qed.

End SplitFacts.

(** ** Membership in the tags of the three modes *)

Section TagFacts.

Lemma elem_of_comma_tags (s x : str) :
  x ∈ (list_to_set (map (fun v => py "#" ++ replace chr_space [] v)
                        (split_sep chr_comma s)) : gset str)
  <-> exists p, p ∈ split_sep chr_comma s /\ x = py "#" ++ remove_spaces p.
Proof.
  rewrite elem_of_list_to_set, list_elem_of_In, in_map_iff.
  split.
  - intros (p & <- & Hp). exists p. split; [now apply list_elem_of_In|].
    now rewrite replace_space_remove_spaces.
  - intros (p & Hp & ->). exists p. split; [|now apply list_elem_of_In].
    now rewrite replace_space_remove_spaces.
Qed.

Lemma elem_of_space_tags (s x : str) :
  x ∈ (list_to_set (map (fun v => py "#" ++ removeprefix (strip v) (py "#"))
                        (split s)) : gset str)
  <-> exists v, v ∈ split s /\
        x = (if startswith v (py "#") then v else py "#" ++ v).
Proof.
  rewrite elem_of_list_to_set, list_elem_of_In, in_map_iff.
  split.
  - intros (v & <- & Hv). apply list_elem_of_In in Hv. exists v.
    split; [exact Hv|]. rewrite (strip_token s v Hv).
    apply space_tag_of_token.
  - intros (v & Hv & ->). exists v. split; [|now apply list_elem_of_In].
    rewrite (strip_token s v Hv). apply space_tag_of_token.
Qed.

Lemma elem_of_hash_tags (s x : str) :
  x ∈ (list_to_set (map strip (List.filter (fun v => startswith v (py "#"))
                                           (split s))) : gset str)
  <-> x ∈ split s /\ startswith x (py "#") = true.
Proof.
  rewrite elem_of_list_to_set, list_elem_of_In, in_map_iff.
  split.
  - intros (v & <- & Hv). apply filter_In in Hv as [Hv Hh].
    apply list_elem_of_In in Hv. rewrite (strip_token s v Hv). now split.
  - intros [Hx Hh]. exists x. split; [now apply (strip_token s)|].
    apply filter_In. split; [now apply list_elem_of_In | exact Hh].
Qed.

(** The tags of [hash] mode for a list of tokens. *)
Lemma hash_tags_of_tokens (l : list str) :
  Forall (fun v => v <> [] /\ Forall (fun c => isspace c = false) v) l ->
  map strip (List.filter (fun v => startswith v (py "#")) l)
  = List.filter (fun v => startswith v (py "#")) l.
Proof.
  induction 1 as [|v l [_ Hv] _ IH]; [reflexivity|].
  cbn [List.filter]. destruct (startswith v (py "#")); [|exact IH].
  cbn [map]. now rewrite IH, strip_nospace.
Qed.

End TagFacts.

(** ** [parse_hashtags], beyond the claims *)

(** X1: on a string, each of the three supported formats returns a set (no
    exception), and every tag in it starts with [#]. *)
Theorem parse_hashtags_supported_format (s : str) (format : pyval) :
  format = VStr (py "comma") \/ format = VStr (py "space")
  \/ format = VStr (py "hash") ->
  exists tags,
    parse_hashtags (VStr s) format = Ok tags /\
    forall x, x ∈ tags -> startswith x (py "#") = true.
Proof.
  intros [-> | [-> | ->]].
  - destruct s as [|c s].
    + exists ∅. split; [reflexivity|]. intros x Hx.
      now apply not_elem_of_empty in Hx.
    + eexists. split; [now apply parse_hashtags_comma_eq|].
      intros x Hx. apply elem_of_comma_tags in Hx as (p & _ & ->).
      reflexivity.
  - eexists. split; [apply parse_hashtags_space_eq|].
    intros x Hx. apply elem_of_space_tags in Hx as (v & _ & ->).
    destruct (startswith v (py "#")) eqn:E; [exact E | reflexivity].
  - eexists. split; [apply parse_hashtags_hash_eq|].
    intros x Hx. now apply elem_of_hash_tags in Hx as [_ Hx].
Qed.

Lemma parse_hashtags_supported_format_witness :
  exists tags,
    parse_hashtags (VStr (py "a, b")) (VStr (py "comma")) = Ok tags /\
    forall x, x ∈ tags -> startswith x (py "#") = true.
Proof.
  apply (parse_hashtags_supported_format (py "a, b") (VStr (py "comma"))).
  left. reflexivity.
Defined.

(** X2: no tag of [comma] mode holds a U+0020 space or a comma; no tag of
    [space] or [hash] mode holds any whitespace. *)
Theorem parse_hashtags_tag_characters (s : str) :
  (exists tags,
     parse_hashtags (VStr s) (VStr (py "comma")) = Ok tags /\
     forall x, x ∈ tags -> (chr_space ∉ x) /\ (chr_comma ∉ x))
  /\ (exists tags,
        parse_hashtags (VStr s) (VStr (py "space")) = Ok tags /\
        forall x, x ∈ tags -> Forall (fun c => isspace c = false) x)
  /\ (exists tags,
        parse_hashtags (VStr s) (VStr (py "hash")) = Ok tags /\
        forall x, x ∈ tags -> Forall (fun c => isspace c = false) x).
Proof.
  split; [|split].
  - destruct s as [|c s].
    { exists ∅. split; [reflexivity|]. intros x Hx.
      now apply not_elem_of_empty in Hx. }
    eexists. split; [now apply parse_hashtags_comma_eq|].
    intros x Hx. apply elem_of_comma_tags in Hx as (p & Hp & ->).
    pose proof (split_sep_no_sep chr_comma (c :: s)) as Hno.
    rewrite Forall_forall in Hno. specialize (Hno p Hp).
    change (py "#") with [35%N]. cbn [app].
    split; intros Hin; apply elem_of_cons in Hin as [Heq|Hin];
      try discriminate.
    + apply list_elem_of_In, filter_In in Hin as [_ Hin].
      now rewrite N.eqb_refl in Hin.
    + apply Hno. apply list_elem_of_In, filter_In in Hin as [Hin _].
      now apply list_elem_of_In.
  - eexists. split; [apply parse_hashtags_space_eq|].
    intros x Hx. apply elem_of_space_tags in Hx as (v & Hv & ->).
    apply split_tokens in Hv as [_ Hv].
    destruct (startswith v (py "#")); [exact Hv|].
    change (py "#") with [35%N]. now constructor.
  - eexists. split; [apply parse_hashtags_hash_eq|].
    intros x Hx. apply elem_of_hash_tags in Hx as [Hx _].
    now apply split_tokens in Hx as [_ Hx].
Qed.

(** X3: the tags of [hash] mode are among the tags of [space] mode for the
    same string, and the two modes agree when every token starts with
    [#]. *)
Theorem parse_hashtags_hash_subset_space (s : str) :
  exists th ts,
    parse_hashtags (VStr s) (VStr (py "hash")) = Ok th /\
    parse_hashtags (VStr s) (VStr (py "space")) = Ok ts /\
    th ⊆ ts /\
    (Forall (fun v => startswith v (py "#") = true) (split s) -> th = ts).
Proof.
  eexists. eexists. split; [apply parse_hashtags_hash_eq|].
  split; [apply parse_hashtags_space_eq|]. split.
  - intros x Hx. apply elem_of_hash_tags in Hx as [Hx Hh].
    apply elem_of_space_tags. exists x. split; [exact Hx|]. now rewrite Hh.
  - intros Hall. apply set_eq. intros x.
    rewrite elem_of_hash_tags, elem_of_space_tags.
    rewrite Forall_forall in Hall. split.
    + intros [Hx Hh]. exists x. split; [exact Hx|]. now rewrite Hh.
    + intros (v & Hv & ->). rewrite (Hall v Hv). split; [exact Hv|].
      now apply Hall.
Qed.

(** X4: [comma] mode of two non-empty strings joined by a comma is the union
    of their tags. *)
Theorem parse_hashtags_comma_join (a b : str) :
  a <> [] -> b <> [] ->
  exists ta tb,
    parse_hashtags (VStr a) (VStr (py "comma")) = Ok ta /\
    parse_hashtags (VStr b) (VStr (py "comma")) = Ok tb /\
    parse_hashtags (VStr (a ++ py "," ++ b)) (VStr (py "comma"))
    = Ok (ta ∪ tb).
Proof.
  intros Ha Hb. eexists. eexists.
  split; [now apply parse_hashtags_comma_eq|].
  split; [now apply parse_hashtags_comma_eq|].
  rewrite parse_hashtags_comma_eq by (destruct a; [contradiction|discriminate]).
  change (py "," ++ b) with (chr_comma :: b).
  now rewrite split_sep_app, map_app, list_to_set_app_L.
Qed.

Lemma parse_hashtags_comma_join_witness :
  exists ta tb,
    parse_hashtags (VStr (py "a b")) (VStr (py "comma")) = Ok ta /\
    parse_hashtags (VStr (py "c")) (VStr (py "comma")) = Ok tb /\
    parse_hashtags (VStr (py "a b" ++ py "," ++ py "c")) (VStr (py "comma"))
    = Ok (ta ∪ tb).
Proof.
  apply (parse_hashtags_comma_join (py "a b") (py "c")); discriminate.
Defined.

(** X5: in [comma] mode a comma at the end or at the start of the string
    gives the bare tag [#], the tag of an empty piece. *)
Theorem parse_hashtags_comma_empty_piece (s : str) :
  (exists tags,
     parse_hashtags (VStr (s ++ py ",")) (VStr (py "comma")) = Ok tags
     /\ py "#" ∈ tags)
  /\ (exists tags,
        parse_hashtags (VStr (py "," ++ s)) (VStr (py "comma")) = Ok tags
        /\ py "#" ∈ tags).
Proof.
  split.
  - eexists. split.
    + apply parse_hashtags_comma_eq. destruct s; discriminate.
    + apply elem_of_comma_tags. exists []. split; [|reflexivity].
      change (py ",") with [chr_comma]. rewrite split_sep_app.
      apply elem_of_app. right. left.
  - eexists. split.
    + now apply parse_hashtags_comma_eq.
    + apply elem_of_comma_tags. exists []. split; [|reflexivity].
      change (py "," ++ s) with ([] ++ chr_comma :: s).
      rewrite split_sep_app. apply elem_of_app. left. left.
Qed.

(** X6: a string of whitespace only, though not empty, gives the empty set
    in [space] and in [hash] mode. *)
Theorem parse_hashtags_whitespace_only (s : str) :
  Forall (fun c => isspace c = true) s ->
  parse_hashtags (VStr s) (VStr (py "space")) = Ok ∅
  /\ parse_hashtags (VStr s) (VStr (py "hash")) = Ok ∅.
Proof.
  intros Hs. rewrite parse_hashtags_space_eq, parse_hashtags_hash_eq.
  now rewrite (split_whitespace s Hs).
Qed.

Lemma parse_hashtags_whitespace_only_witness :
  parse_hashtags (VStr [32; 9; 10]%N) (VStr (py "space")) = Ok ∅
  /\ parse_hashtags (VStr [32; 9; 10]%N) (VStr (py "hash")) = Ok ∅.
Proof.
  apply (parse_hashtags_whitespace_only [32; 9; 10]%N).
  repeat constructor.
Defined.

(** X7: [space] and [hash] mode of two strings joined by a whitespace
    character are the unions of the tags of the two strings. *)
Theorem parse_hashtags_whitespace_join (a b : str) (w : char) :
  isspace w = true ->
  (exists ta tb,
     parse_hashtags (VStr a) (VStr (py "space")) = Ok ta /\
     parse_hashtags (VStr b) (VStr (py "space")) = Ok tb /\
     parse_hashtags (VStr (a ++ w :: b)) (VStr (py "space")) = Ok (ta ∪ tb))
  /\ (exists ta tb,
        parse_hashtags (VStr a) (VStr (py "hash")) = Ok ta /\
        parse_hashtags (VStr b) (VStr (py "hash")) = Ok tb /\
        parse_hashtags (VStr (a ++ w :: b)) (VStr (py "hash"))
        = Ok (ta ∪ tb)).
Proof.
  intros Hw. split; eexists; eexists.
  - split; [apply parse_hashtags_space_eq|].
    split; [apply parse_hashtags_space_eq|].
    rewrite parse_hashtags_space_eq, (split_app a b w Hw).
    now rewrite map_app, list_to_set_app_L.
  - split; [apply parse_hashtags_hash_eq|].
    split; [apply parse_hashtags_hash_eq|].
    rewrite parse_hashtags_hash_eq, (split_app a b w Hw).
    now rewrite List.filter_app, map_app, list_to_set_app_L.
Qed.

Lemma parse_hashtags_whitespace_join_witness :
  (exists ta tb,
     parse_hashtags (VStr (py "#a")) (VStr (py "space")) = Ok ta /\
     parse_hashtags (VStr (py "b")) (VStr (py "space")) = Ok tb /\
     parse_hashtags (VStr (py "#a" ++ 10%N :: py "b")) (VStr (py "space"))
     = Ok (ta ∪ tb))
  /\ (exists ta tb,
        parse_hashtags (VStr (py "#a")) (VStr (py "hash")) = Ok ta /\
        parse_hashtags (VStr (py "b")) (VStr (py "hash")) = Ok tb /\
        parse_hashtags (VStr (py "#a" ++ 10%N :: py "b")) (VStr (py "hash"))
        = Ok (ta ∪ tb)).
Proof.
  apply (parse_hashtags_whitespace_join (py "#a") (py "b") 10%N).
  reflexivity.
Defined.

(** ** [add_hashtags], beyond the claims *)

Section BudgetFacts.

Lemma len_blocks (l : list str) : len (blocks l) = blocks_length l.
Proof.
  induction l as [|ht l IH]; [reflexivity|].
  change (blocks (ht :: l)) with (chr_space :: (ht ++ blocks l)).
  cbn [blocks_length foldr]. fold (blocks_length l). rewrite <- IH.
  unfold len. cbn [length]. rewrite length_app. lia.
Qed.

Lemma len_text_blocks (t : str) (l : list str) :
  len (t ++ blocks l) = len t + blocks_length l.
Proof. rewrite <- len_blocks. unfold len. rewrite length_app. lia. Qed.

Lemma blocks_length_nonneg (l : list str) : 0 <= blocks_length l.
Proof.
  induction l as [|ht l IH]; cbn; [lia|]. fold (blocks_length l).
  unfold len. lia.
Qed.

Lemma blocks_length_app (l k : list str) :
  blocks_length (l ++ k) = blocks_length l + blocks_length k.
Proof.
  induction l as [|ht l IH]; cbn; [reflexivity|].
  fold (blocks_length (l ++ k)) (blocks_length l). lia.
Qed.

(** Some of the tags take no more room than all of them. *)
Lemma blocks_length_submseteq (l k : list str) :
  l ⊆+ k -> blocks_length l <= blocks_length k.
Proof.
  induction 1 as [|x l1 l2 _ IH|x y l|x l1 l2 _ IH|l1 l2 l3 _ IH1 _ IH2];
    cbn [blocks_length foldr] in *;
    try (fold (blocks_length l1) (blocks_length l2) in * );
    try (fold (blocks_length l) in * ); unfold len in *; lia.
Qed.

Lemma blocks_length_popped (hs : gset str) (l : list str) :
  NoDup l -> Forall (fun x => x ∈ hs) l -> blocks_length l <= tags_length hs.
Proof.
  intros Hnd Hin. apply blocks_length_submseteq, NoDup_submseteq; [exact Hnd|].
  intros x Hx. rewrite Forall_forall in Hin. apply elem_of_elements.
  now apply Hin.
Qed.

Lemma blocks_length_all (hs : gset str) (l : list str) :
  NoDup l -> (forall x, x ∈ l <-> x ∈ hs) -> blocks_length l = tags_length hs.
Proof.
  intros Hnd Hiff.
  assert (Hp : l ≡ₚ elements hs).
  { apply NoDup_Permutation; [exact Hnd | apply NoDup_elements |].
    intros x. rewrite Hiff. symmetry. apply elem_of_elements. }
  apply Z.le_antisymm; apply blocks_length_submseteq, Permutation_submseteq;
    [exact Hp | now symmetry].
Qed.

End BudgetFacts.

(** X8: when the text and all the tags fit below the limit, every tag is
    appended and the set is left empty; the result is longer than the text by
    one space and the tag, per tag. *)
Theorem add_hashtags_all_fit `{SetPop} (t : str) (hs : gset str) (lim : Z) :
  len t + tags_length hs < lim ->
  exists r,
    while_hashtags (size hs) t hs lim = Some r
    /\ add_hashtags (VStr t) (VSet hs) lim = Some (Ok (lr_text r), VSet ∅)
    /\ lr_rejected r = None
    /\ list_to_set (lr_appended r) = hs
    /\ lr_text r = t ++ blocks (lr_appended r)
    /\ len (lr_text r) = len t + tags_length hs.
Proof.
  intros Hroom.
  destruct (add_hashtags_returns t hs lim) as (r & Hr & Hcall & P).
  destruct P as [Ptext Pnd Pin Phs Pit Psz Pex Prej Pbd].
  assert (Hnone : lr_rejected r = None).
  { destruct (lr_rejected r) as [ht|] eqn:E; [|reflexivity]. exfalso.
    specialize (Prej ht eq_refl).
    pose proof (blocks_length_popped hs _ Pnd Pin) as Hle.
    unfold popped in Hle. rewrite E in Hle. cbn in Hle.
    rewrite blocks_length_app in Hle. cbn in Hle.
    rewrite Ptext, len_text_blocks in Prej. lia. }
  assert (Hempty : lr_hashtags r = ∅) by now apply Pex.
  assert (Hpop : popped r = lr_appended r)
    by (unfold popped; rewrite Hnone; apply app_nil_r).
  rewrite Hpop in *.
  assert (Hiff : forall x, x ∈ lr_appended r <-> x ∈ hs).
  { intros x. split.
    - intros Hx. rewrite Forall_forall in Pin. now apply Pin.
    - intros Hx. destruct (decide (x ∈ lr_appended r)) as [Hy|Hn]; [exact Hy|].
      assert (Hin : x ∈ lr_hashtags r).
      { rewrite Phs. apply elem_of_difference. split; [exact Hx|].
        now rewrite elem_of_list_to_set. }
      rewrite Hempty in Hin. now apply not_elem_of_empty in Hin. }
  exists r. split; [exact Hr|]. split; [now rewrite Hcall, Hempty|].
  split; [exact Hnone|]. split; [|split; [exact Ptext|]].
  - apply set_eq. intros x. now rewrite elem_of_list_to_set.
  - rewrite Ptext, len_text_blocks. f_equal.
    now apply blocks_length_all.
Qed.

Lemma add_hashtags_all_fit_witness :
  exists r,
    while_hashtags (size ({[ py "#a"; py "#bb" ]} : gset str)) (py "Hello")
                   {[ py "#a"; py "#bb" ]} 13 = Some r
    /\ add_hashtags (VStr (py "Hello")) (VSet {[ py "#a"; py "#bb" ]}) 13
       = Some (Ok (lr_text r), VSet ∅)
    /\ lr_rejected r = None
    /\ list_to_set (lr_appended r) = ({[ py "#a"; py "#bb" ]} : gset str)
    /\ lr_text r = py "Hello" ++ blocks (lr_appended r)
    /\ len (lr_text r)
       = len (py "Hello") + tags_length {[ py "#a"; py "#bb" ]}.
Proof.
  apply (add_hashtags_all_fit (py "Hello") {[ py "#a"; py "#bb" ]} 13).
  vm_compute. reflexivity.
Defined.

(** X9: when every tag of the set starts with [#] and holds no whitespace,
    [hash] mode reads from the returned string the tags of the text and the
    tags that were appended; these are all the tags of the set when none was
    rejected. *)
Theorem add_hashtags_then_parse_hash `{SetPop} (t : str) (hs : gset str)
        (lim : Z) :
  (forall x, x ∈ hs -> hashtag_like x) ->
  exists r tt,
    while_hashtags (size hs) t hs lim = Some r
    /\ add_hashtags (VStr t) (VSet hs) lim
       = Some (Ok (lr_text r), VSet (lr_hashtags r))
    /\ parse_hashtags (VStr t) (VStr (py "hash")) = Ok tt
    /\ parse_hashtags (VStr (lr_text r)) (VStr (py "hash"))
       = Ok (tt ∪ list_to_set (lr_appended r))
    /\ (lr_rejected r = None ->
        parse_hashtags (VStr (lr_text r)) (VStr (py "hash")) = Ok (tt ∪ hs)).
Proof.
  intros Hwf.
  destruct (add_hashtags_returns t hs lim) as (r & Hr & Hcall & P).
  destruct P as [Ptext Pnd Pin Phs Pit Psz Pex Prej Pbd].
  assert (Happ : Forall (fun x => x ∈ hs) (lr_appended r)).
  { unfold popped in Pin. now apply Forall_app in Pin as [Pin _]. }
  assert (Hlike : Forall hashtag_like (lr_appended r)).
  { eapply Forall_impl; [exact Happ|]. exact Hwf. }
  assert (Htok : Forall (fun ht => ht <> [] /\
                           Forall (fun c => isspace c = false) ht)
                        (lr_appended r)).
  { eapply Forall_impl; [exact Hlike|]. intros x [Hh Hws]. split; [|exact Hws].
    intros ->. discriminate. }
  assert (Hfilter : List.filter (fun v => startswith v (py "#"))
                                (lr_appended r) = lr_appended r).
  { clear -Hlike. induction Hlike as [|x l [Hh _] _ IH]; [reflexivity|].
    cbn [List.filter]. now rewrite Hh, IH. }
  assert (Hparse : parse_hashtags (VStr (lr_text r)) (VStr (py "hash"))
                   = Ok (list_to_set
                           (map strip
                                (List.filter (fun v => startswith v (py "#"))
                                             (split t)))
                         ∪ list_to_set (lr_appended r))).
  { rewrite parse_hashtags_hash_eq, Ptext, split_app_blocks by exact Htok.
    rewrite List.filter_app, map_app, list_to_set_app_L.
    now rewrite (hash_tags_of_tokens _ Htok), Hfilter. }
  exists r. eexists. split; [exact Hr|]. split; [exact Hcall|].
  split; [apply parse_hashtags_hash_eq|]. split; [exact Hparse|].
  intros Hnone. rewrite Hparse. do 2 f_equal.
  specialize (Pex Hnone). unfold popped in Phs. rewrite Hnone in Phs.
  cbn in Phs. rewrite app_nil_r in Phs.
  apply set_eq. intros x. rewrite elem_of_list_to_set. split.
  - intros Hx. rewrite Forall_forall in Happ. now apply Happ.
  - intros Hx. destruct (decide (x ∈ lr_appended r)) as [Hy|Hn]; [exact Hy|].
    assert (Hin : x ∈ lr_hashtags r).
    { rewrite Phs. apply elem_of_difference. split; [exact Hx|].
      now rewrite elem_of_list_to_set. }
    rewrite Pex in Hin. now apply not_elem_of_empty in Hin.
Qed.

Lemma add_hashtags_then_parse_hash_witness :
  exists r tt,
    while_hashtags (size ({[ py "#a"; py "#bb" ]} : gset str)) (py "Hi #x")
                   {[ py "#a"; py "#bb" ]} 12 = Some r
    /\ add_hashtags (VStr (py "Hi #x")) (VSet {[ py "#a"; py "#bb" ]}) 12
       = Some (Ok (lr_text r), VSet (lr_hashtags r))
    /\ parse_hashtags (VStr (py "Hi #x")) (VStr (py "hash")) = Ok tt
    /\ parse_hashtags (VStr (lr_text r)) (VStr (py "hash"))
       = Ok (tt ∪ list_to_set (lr_appended r))
    /\ (lr_rejected r = None ->
        parse_hashtags (VStr (lr_text r)) (VStr (py "hash"))
        = Ok (tt ∪ {[ py "#a"; py "#bb" ]})).
Proof.
  apply (add_hashtags_then_parse_hash (py "Hi #x") {[ py "#a"; py "#bb" ]} 12).
  intros x Hx. apply elem_of_union in Hx as [Hx|Hx];
    apply elem_of_singleton in Hx; subst x; split;
    first [reflexivity | repeat constructor].
Defined.

(** X14: when the text is within one character of the limit or over it, a
    call on a non-empty set returns the text as it is and removes exactly
    one tag from the set. *)
Theorem add_hashtags_no_room `{SetPop} (t : str) (hs : gset str) (lim : Z) :
  lim <= len t + 1 -> hs <> ∅ ->
  exists ht,
    ht ∈ hs /\
    add_hashtags (VStr t) (VSet hs) lim = Some (Ok t, VSet (hs ∖ {[ ht ]})).
Proof.
  intros Hlim Hne.
  destruct (add_hashtags_returns t hs lim) as (r & _ & Hcall & P).
  destruct P as [Ptext Pnd Pin Phs Pit Psz Pex Prej Pbd].
  assert (Happ : lr_appended r = []).
  { destruct (lr_appended r) as [|ht l] eqn:E; [reflexivity|]. exfalso.
    destruct Pbd as [Heq|Hlt].
    - rewrite Ptext in Heq. rewrite <- (app_nil_r t) in Heq at 2.
      apply app_inv_head in Heq. discriminate.
    - rewrite Ptext, len_text_blocks in Hlt. cbn in Hlt.
      pose proof (blocks_length_nonneg l). fold (blocks_length l) in Hlt.
      unfold len in *. lia. }
  assert (Htext : lr_text r = t).
  { rewrite Ptext, Happ. apply app_nil_r. }
  unfold popped in Pin, Phs. rewrite Happ in Pin, Phs.
  cbn [app] in Pin, Phs.
  destruct (lr_rejected r) as [ht|].
  - exists ht. apply List.Forall_inv in Pin. split; [exact Pin|].
    rewrite Hcall, Htext, Phs. cbn. now rewrite union_empty_r_L.
  - exfalso. apply Hne. rewrite <- (Pex eq_refl), Phs. cbn.
    now rewrite difference_empty_L.
Qed.

Lemma add_hashtags_no_room_witness :
  exists ht,
    ht ∈ ({[ py "#a"; py "#bb" ]} : gset str) /\
    add_hashtags (VStr (py "Hello")) (VSet {[ py "#a"; py "#bb" ]}) 6
    = Some (Ok (py "Hello"), VSet ({[ py "#a"; py "#bb" ]} ∖ {[ ht ]})).
Proof.
  apply (add_hashtags_no_room (py "Hello") {[ py "#a"; py "#bb" ]} 6).
  - vm_compute. discriminate.
  - intros Heq. apply (f_equal size) in Heq. vm_compute in Heq. discriminate.
Defined.

(** ** [main] *)

Section MainFacts.
Context `{SetPop}.

Lemma len_replace_char (old new : char) (s : str) :
  len (replace old [new] s) = len s.
Proof.
  unfold len. f_equal. unfold replace.
  induction s as [|c s IH]; [reflexivity|].
  cbn [flat_map]. rewrite length_app, IH. now destruct (c =? old)%N.
Qed.

Lemma replace_char_gone (old new : char) (s : str) :
  new <> old -> old ∉ replace old [new] s.
Proof.
  intros Hne. unfold replace. induction s as [|c s IH]; cbn [flat_map].
  - apply not_elem_of_nil.
  - intros Hin. apply elem_of_app in Hin as [Hin|Hin]; [|contradiction].
    destruct (N.eqb_spec c old) as [->|Hc];
      apply list_elem_of_singleton in Hin; congruence.
Qed.

(** A character of a piece is a character of the string. *)
Lemma split_sep_piece_subset sep (s p : str) (c : char) :
  p ∈ split_sep sep s -> c ∈ p -> c ∈ s.
Proof.
  intros Hp Hc. rewrite <- (join_split_sep sep s).
  induction (split_sep sep s) as [|q qs IH]; [now apply elem_of_nil in Hp|].
  apply elem_of_cons in Hp as [->|Hp].
  - destruct qs; cbn [join]; [exact Hc|]. apply elem_of_app. now left.
  - destruct qs as [|q' qs]; [now apply elem_of_nil in Hp|]. cbn [join].
    apply elem_of_app. right. right. now apply IH.
Qed.

(** The base hashtags of [main]: the call never raises. *)
Lemma parse_hashtags_comma_ok (themes : str) :
  exists base,
    parse_hashtags (VStr themes) (VStr (py "comma")) = Ok base /\
    forall x, x ∈ base ->
      exists p, p ∈ split_sep chr_comma themes /\ x = py "#" ++ remove_spaces p.
Proof.
  destruct themes as [|c themes].
  - exists ∅. split; [reflexivity|]. intros x Hx.
    now apply not_elem_of_empty in Hx.
  - eexists. split; [now apply parse_hashtags_comma_eq|].
    intros x Hx. now apply elem_of_comma_tags in Hx.
Qed.

(** The two ways a run of [main] ends. *)
Lemma main_cases (init_ok : bool) (themes style : str)
      (story_out htags_out : option str) :
  (main init_ok themes style story_out htags_out = Some Return1 /\
   (init_ok = false \/ story_out = None \/
    (exists story, story_out = Some story /\ 200 <= len story) \/
    htags_out = None))
  \/
  (exists story htags base generated r,
     init_ok = true /\ story_out = Some story /\ len story < 200 /\
     htags_out = Some htags /\
     parse_hashtags (VStr themes) (VStr (py "comma")) = Ok base /\
     parse_hashtags (VStr htags) (VStr (py "hash")) = Ok generated /\
     loop_post (replace chr_newline (py " ") story) (base ∪ generated)
               POST_LEN_LIMIT r /\
     main init_ok themes style story_out htags_out
     = Some (WriteRow themes style (lr_text r))).
Proof.
  unfold main. destruct init_ok; [|left; split; [reflexivity | now left]].
  cbn [negb]. destruct story_out as [story|];
    [|left; split; [reflexivity | right; now left]].
  destruct (Z.ltb_spec (len story) 200) as [Hlt|Hge]; cbn [negb];
    [|left; split; [reflexivity | right; right; left; now exists story]].
  destruct htags_out as [htags|];
    [|left; split; [reflexivity | now repeat right]].
  right. destruct (parse_hashtags_comma_ok themes) as (base & Hbase & _).
  rewrite Hbase, parse_hashtags_hash_eq. cbv zeta.
  destruct (add_hashtags_returns (replace chr_newline (py " ") story)
              (base ∪ list_to_set
                 (map strip (List.filter (fun v => startswith v (py "#"))
                                         (split htags))))
              POST_LEN_LIMIT) as (r & _ & Hcall & P).
  rewrite Hcall. exists story, htags, base. eexists. exists r.
  do 5 (split; [reflexivity || assumption|]).
  split; [apply parse_hashtags_hash_eq|]. split; [exact P | reflexivity].
Qed.

End MainFacts.

(** X10: a run of [main] ends, and the row it writes holds the themes and
    the style as given and a post shorter than [POST_LEN_LIMIT]. *)
Theorem main_post_below_limit `{SetPop} (init_ok : bool) (themes style : str)
        (story_out htags_out : option str) :
  exists o,
    main init_ok themes style story_out htags_out = Some o /\
    forall th st post, o = WriteRow th st post ->
      th = themes /\ st = style /\ len post < POST_LEN_LIMIT.
Proof.
  destruct (main_cases init_ok themes style story_out htags_out)
    as [[Hm _] | (story & htags & base & gen & r & _ & _ & Hlt & _ & _ & _
                  & P & Hm)].
  - exists Return1. split; [exact Hm|]. discriminate.
  - eexists. split; [exact Hm|]. intros th st post [= <- <- <-].
    repeat split. destruct (post_bound _ _ _ _ P) as [->|Hb]; [|exact Hb].
    change (py " ") with [chr_space]. rewrite len_replace_char.
    unfold POST_LEN_LIMIT. lia.
Qed.

(** X11: [main] returns 1 exactly when the model could not be initialised,
    a generation call raised, or the story has 200 characters or more;
    parsing and appending hashtags never make a run fail. *)
Theorem main_returns_1_iff `{SetPop} (init_ok : bool) (themes style : str)
        (story_out htags_out : option str) :
  main init_ok themes style story_out htags_out = Some Return1
  <-> (init_ok = false \/ story_out = None \/
       (exists story, story_out = Some story /\ 200 <= len story) \/
       htags_out = None).
Proof.
  destruct (main_cases init_ok themes style story_out htags_out)
    as [[Hm Hwhy] | (story & htags & base & gen & r & -> & -> & Hlt & -> & _
                     & _ & _ & Hm)].
  - split; [intros _; exact Hwhy | intros _; exact Hm].
  - rewrite Hm. split; [discriminate|].
    intros [Hf | [Hf | [(s & [= <-] & Hge) | Hf]]]; try discriminate. lia.
Qed.

(** X12: the post of the row is the story with each line feed replaced by a
    space, followed by one space and a tag per appended tag; the appended
    tags are distinct, start with [#], and come from the themes ([comma]
    mode) or from the generated hashtags ([hash] mode). *)
Theorem main_post_shape `{SetPop} (init_ok : bool) (themes style : str)
        (story_out htags_out : option str) (th st post : str) :
  main init_ok themes style story_out htags_out = Some (WriteRow th st post) ->
  exists story htags base generated appended,
    story_out = Some story /\ htags_out = Some htags /\
    parse_hashtags (VStr themes) (VStr (py "comma")) = Ok base /\
    parse_hashtags (VStr htags) (VStr (py "hash")) = Ok generated /\
    post = replace chr_newline (py " ") story ++ blocks appended /\
    NoDup appended /\
    Forall (fun ht => ht ∈ base ∪ generated
                      /\ startswith ht (py "#") = true) appended.
Proof.
  intros Hrow.
  destruct (main_cases init_ok themes style story_out htags_out)
    as [[Hm _] | (story & htags & base & gen & r & _ & Hs & _ & Hh & Hbase
                  & Hgen & P & Hm)]; [congruence|].
  rewrite Hm in Hrow. injection Hrow as _ _ <-.
  exists story, htags, base, gen, (lr_appended r).
  repeat (split; [assumption|]). split; [apply (post_text _ _ _ _ P)|].
  pose proof (post_nodup _ _ _ _ P) as Hnd.
  pose proof (post_popped_in _ _ _ _ P) as Hin.
  unfold popped in Hnd, Hin. apply NoDup_app in Hnd as (Hnd & _).
  apply Forall_app in Hin as [Hin _]. split; [exact Hnd|].
  eapply Forall_impl; [exact Hin|]. intros ht Hht. split; [exact Hht|].
  apply elem_of_union in Hht as [Hb|Hg].
  - destruct (parse_hashtags_comma_ok themes) as (base' & Hbase' & Hel).
    rewrite Hbase in Hbase'. apply Ok_inj in Hbase'. subst base'.
    destruct (Hel ht Hb) as (p & _ & ->). reflexivity.
  - rewrite parse_hashtags_hash_eq in Hgen. apply Ok_inj in Hgen.
    subst gen. now apply elem_of_hash_tags in Hg as [_ Hg].
Qed.

Lemma main_post_shape_witness :
  exists story htags base generated appended,
    Some (py "Once upon a time") = Some story /\
    Some (py "#tale lore") = Some htags /\
    parse_hashtags (VStr (py "cats, dogs")) (VStr (py "comma")) = Ok base /\
    parse_hashtags (VStr htags) (VStr (py "hash")) = Ok generated /\
    py "Once upon a time #cats #dogs #tale"
    = replace chr_newline (py " ") story ++ blocks appended /\
    NoDup appended /\
    Forall (fun ht => ht ∈ base ∪ generated
                      /\ startswith ht (py "#") = true) appended.
Proof.
  apply (main_post_shape true (py "cats, dogs") (py "funny")
           (Some (py "Once upon a time")) (Some (py "#tale lore"))
           (py "cats, dogs") (py "funny")).
  vm_compute. reflexivity.
Defined.

(** X13: when the themes hold no line feed, the post of the row holds none:
    the story has them replaced, a generated tag holds no whitespace, and a
    tag of the themes holds only characters of the themes. *)
Theorem main_post_single_line `{SetPop} (init_ok : bool) (themes style : str)
        (story_out htags_out : option str) (th st post : str) :
  chr_newline ∉ themes ->
  main init_ok themes style story_out htags_out = Some (WriteRow th st post) ->
  chr_newline ∉ post.
Proof.
  intros Hthemes Hrow.
  destruct (main_cases init_ok themes style story_out htags_out)
    as [[Hm _] | (story & htags & base & gen & r & _ & _ & _ & _ & Hbase
                  & Hgen & P & Hm)]; [congruence|].
  rewrite Hm in Hrow. injection Hrow as _ _ <-.
  rewrite (post_text _ _ _ _ P).
  pose proof (post_popped_in _ _ _ _ P) as Hin.
  unfold popped in Hin. apply Forall_app in Hin as [Hin _].
  intros Hnl. apply elem_of_app in Hnl as [Hnl|Hnl].
  { revert Hnl. change (py " ") with [chr_space].
    now apply replace_char_gone. }
  induction Hin as [|ht l Hht _ IH]; [now apply elem_of_nil in Hnl|].
  change (blocks (ht :: l)) with (chr_space :: (ht ++ blocks l)) in Hnl.
  apply elem_of_cons in Hnl as [Heq|Hnl]; [discriminate|].
  apply elem_of_app in Hnl as [Hnl|Hnl]; [|now apply IH].
  apply elem_of_union in Hht as [Hb|Hg].
  - destruct (parse_hashtags_comma_ok themes) as (base' & Hbase' & Hel).
    rewrite Hbase in Hbase'. apply Ok_inj in Hbase'. subst base'.
    destruct (Hel ht Hb) as (p & Hp & ->).
    change (py "#") with [chr_hash] in Hnl. cbn [app] in Hnl.
    apply elem_of_cons in Hnl as [Heq|Hnl]; [discriminate|].
    apply list_elem_of_In, filter_In in Hnl as [Hnl _].
    apply list_elem_of_In in Hnl.
    apply Hthemes. now apply (split_sep_piece_subset chr_comma themes p).
  - rewrite parse_hashtags_hash_eq in Hgen. apply Ok_inj in Hgen.
    subst gen. apply elem_of_hash_tags in Hg as [Hg _].
    apply split_tokens in Hg as [_ Hws]. rewrite Forall_forall in Hws.
    specialize (Hws _ Hnl). discriminate.
Qed.

Lemma main_post_single_line_witness :
  chr_newline ∉ py "Once upon a time #cats #dogs #tale".
Proof.
  apply (main_post_single_line true (py "cats, dogs") (py "funny")
           (Some [79; 110; 99; 101; 10; 117; 112; 111; 110; 10; 97; 32;
                  116; 105; 109; 101]%N)
           (Some (py "#tale lore"))
           (py "cats, dogs") (py "funny")).
  - intros Hin. repeat (apply elem_of_cons in Hin as [Hin|Hin];
                        [discriminate|]).
    now apply elem_of_nil in Hin.
  - vm_compute. reflexivity.
Defined.
